(** * Tank Combat feature helpers (tankwar/function.js)

    A shallow embedding of the opt-in helpers of [function.js]: the extra-AI
    controller returned by [spawnMoreEnemies] (its per-tick [updateOne] and
    the batch [updateAllAI]) and the three patch installers
    [increaseBulletSpeed], [enableBouncingBullets] and [enableDeadlyWalls].

    Conventions of the embedding.
    - A finite JavaScript number is a rational ([Q]); arithmetic is exact.
      Comparisons are the boolean tests of the source ([<], [<=], [>]).
    - Objects live in a store and are named by references; a reference
      always names an object, so the store is a total function.  A [Map]
      keyed by object identity is a finite map keyed by reference.
    - A call that can throw returns a [Result]; the store reached when the
      exception is raised is kept, as in JavaScript. *)

From Stdlib Require Import QArith Qabs Qround Lqa ZArith String.
From stdpp Require Import base option list functions gmap strings.

Open Scope Q_scope.

(** ** Numbers *)

Definition num := Q.

Definition ltb (a b : num) : bool := negb (Qle_bool b a).
Definition leb (a b : num) : bool := Qle_bool a b.
Definition gtb (a b : num) : bool := ltb b a.

Declare Scope js_scope.
Delimit Scope js_scope with js.
Infix "<?" := ltb (at level 70, no associativity) : js_scope.
Infix "<=?" := leb (at level 70, no associativity) : js_scope.
Infix ">?" := gtb (at level 70, no associativity) : js_scope.
Open Scope js_scope.

Definition Math_max (a b : num) : num := if a <? b then b else a.
Definition Math_min (a b : num) : num := if b <? a then b else a.
Definition Math_abs (a : num) : num := Qabs a.

(** [Math.hypot(dx, dy) < c].  The square root is not rational, so only the
    comparison the source makes is embedded: for finite numbers
    [sqrt (dx^2 + dy^2) < c] holds exactly when [c] is positive and
    [dx^2 + dy^2 < c^2]. *)
Definition Math_hypot_lt (dx dy c : num) : bool :=
  (0 <? c) && (dx * dx + dy * dy <? c * c).

(** function.js:280  [function clamp(v, a, b) { return Math.max(a, Math.min(b, v)); }] *)
Definition clamp (v a b : num) : num := Math_max a (Math_min b v).

(** function.js:264  [scaleDt(dt, multiplier = 2)] *)
Definition scaleDt (dt : num) (multiplier : option num) : num :=
  dt * default 2 multiplier.

(** ** Exceptions and the store-passing monad *)

Inductive Error : Type :=
  | TypeError (msg : string)
  | JsError (msg : string).

Inductive Result (A : Type) : Type :=
  | Ok (a : A)
  | Throw (e : Error).
Arguments Ok {A} a.
Arguments Throw {A} e.

Definition M (S A : Type) : Type := S -> Result A * S.

Definition ret {S A} (a : A) : M S A := fun s => (Ok a, s).
Definition throw {S A} (e : Error) : M S A := fun s => (Throw e, s).
Definition bind {S A B} (m : M S A) (k : A -> M S B) : M S B :=
  fun s => match m s with
           | (Ok a, s') => k a s'
           | (Throw e, s') => (Throw e, s')
           end.
Definition get {S} : M S S := fun s => (Ok s, s).
Definition modify {S} (f : S -> S) : M S unit := fun s => (Ok tt, f s).

Notation "x <- m ;; k" := (bind m (fun x => k))
  (at level 100, m at next level, right associativity) : js_scope.
Notation "m ;;; k" := (bind m (fun _ => k))
  (at level 100, right associativity) : js_scope.

(** [for (const a of l) body(a)] *)
Fixpoint for_of {S A} (l : list A) (body : A -> M S unit) : M S unit :=
  match l with
  | [] => ret tt
  | a :: l' => body a ;;; for_of l' body
  end.

(** function.js:270-277.  [last] is the variable that the returned closure
    captures: the closure runs on [last] and on whatever [frameFn] runs on. *)
Definition wrapFrameWithSpeed {F R} (frameFn : num -> M F R) (multiplier : option num)
  : num -> M (option num * F) R :=
  fun t s =>
    let last := match fst s with
                | None => t
                | Some l => l
                end in
    let scaled := last + (t - last) * default 2 multiplier in
    match frameFn scaled (snd s) with
    | (r, f) => (r, (Some last, f))
    end.

(** The frames of a run: the callback is called on each time stamp in turn;
    the answers are collected, a throw ends the run. *)
Fixpoint feedFrames {S R} (frame : num -> M S R) (ts : list num) : M S (list R) :=
  match ts with
  | [] => ret []
  | t :: ts' => r <- frame t ;; rs <- feedFrames frame ts' ;; ret (r :: rs)
  end.

(** ** Objects of the game *)

Definition ref := positive.

Section Game.

Context {Body Game : Type}.

(** A tank object.  [Tank] itself is a class of main.js; the helpers read and
    write the fields below, and [tank_body] stands for every other field
    (cool-down, alive flag, ...). *)
Record Tank : Type := mkTank {
  tank_x : num;
  tank_y : num;
  tank_angle : num;
  tank_turnSpeed : num;
  tank_radius : num;
  tank_color : option string;
  tank_body : Body
}.

(** A bullet object, with the fields that the patches read and write.
    [bullet_bounces] is the [_bounces] counter, absent until the patched
    [update] first runs on the bullet. *)
Record Bullet : Type := mkBullet {
  bullet_x : num;
  bullet_y : num;
  bullet_vx : num;
  bullet_vy : num;
  bullet_life : num;
  bullet_alive : bool;
  bullet_bounces : option num
}.

(** An entry of the [maze] array; [wall_deadly] is false while the entry has
    no [deadly] property. *)
Record Wall : Type := mkWall {
  wall_x : num;
  wall_y : num;
  wall_w : num;
  wall_h : num;
  wall_deadly : bool
}.

(** What the collaborators of main.js can see and change: the tank and bullet
    objects, the [maze] array and the rest of the game (navigation grid,
    scores, effects, ...).  [allocated] is the set of references handed out
    by [new] so far. *)
Record World : Type := mkWorld {
  tanks : ref -> Tank;
  allocated : gset ref;
  bullets : ref -> Bullet;
  maze : list Wall;
  game : Game
}.

Definition set_tanks (v : ref -> Tank) (w : World) : World :=
  mkWorld v (allocated w) (bullets w) (maze w) (game w).
Definition set_bullets (v : ref -> Bullet) (w : World) : World :=
  mkWorld (tanks w) (allocated w) v (maze w) (game w).
Definition set_maze (v : list Wall) (w : World) : World :=
  mkWorld (tanks w) (allocated w) (bullets w) v (game w).

(** The [env] object destructured at function.js:161 and the methods of the
    tank objects that [updateOne] invokes. *)
Record Env : Type := mkEnv {
  canvas : num * num;                       (* clientWidth, clientHeight *)
  player : ref;
  angleTo : num -> num -> num -> num -> num;
  angDiff : num -> num -> num;
  hasLineOfSight : World -> num -> num -> num -> num -> bool;
  ensureNav : num -> World -> World;
  navWaypoint : World -> num -> num -> option (num * num);
  distanceToWall : World -> num -> num -> num -> num -> num;
  canOccupy : option (num -> num -> num -> bool);
  tank_updateMovement : num -> bool -> bool -> bool -> bool -> ref -> World -> World;
  tank_canFire : ref -> World -> bool;
  tank_fire : ref -> World -> World
}.

(** function.js:200  the per-enemy record kept in the [state] map. *)
Record AgentState : Type := mkAgentState {
  hasSight : bool;
  holdFire : num;
  unstick : num;
  unstickDir : Z;
  progress : num;
  lastX : num;
  lastY : num
}.

(** Calls that [updateOne] makes on its collaborators, in program order. *)
Inductive Call : Type :=
  | CallRandom (r : num)
  | CallEnsureNav (dt : num)
  | CallUpdateMovement (e : ref) (dt : num) (turnLeft turnRight goForward goBackward : bool)
  | CallCanFire (e : ref) (res : bool)
  | CallFire (e : ref).

(** What a controller created by [spawnMoreEnemies] runs on: the world, its
    private [state] map, the draws that [Math.random] has yet to return (the
    generator belongs to the runtime, not to the game), and the trace of the
    calls made so far. *)
Record Ctl : Type := mkCtl {
  world : World;
  state : gmap ref AgentState;
  rng : nat -> num;
  calls : list Call
}.

(** ** The patch installers (function.js:13-137)

    A method is a function of its arguments and of [this].  A class object
    carries the prototype methods that the installers replace and the guard
    properties they set; a property that is absent is [None].  An installer
    receives the class object, or [None] for a value that its guard turns
    down (a falsy value, or one that is not a function), and returns the
    class object as the call leaves it.  A class object is a function with a
    prototype; a function without one is not covered. *)

Context {FireArgs MoveArgs : Type}.

Definition Method (A R : Type) : Type := A -> ref -> M World R.

(** What [Tank.prototype.fire] returns. *)
Inductive Fired : Type :=
  | NoBullet                 (* a falsy value *)
  | NotABullet               (* an object whose [vx] or [vy] is not a number *)
  | FiredBullet (b : ref).   (* a bullet *)

Record TankClassObj : Type := mkTankClassObj {
  proto_fire : option (Method FireArgs Fired);
  proto_updateMovement : option (Method MoveArgs unit);
  orig_fire_fastpatch : option (Method FireArgs Fired);
  orig_update_move_deadlypatch : option (Method MoveArgs unit)
}.

Record BulletClassObj : Type := mkBulletClassObj {
  proto_update : option (Method num unit);
  orig_update_bouncepatch : option (Method num unit)
}.

(** [orig.apply(this, args)], for an [orig] that may be undefined. *)
Definition apply {A R} (orig : option (Method A R)) (this : ref) (args : A) : M World R :=
  match orig with
  | Some f => f args this
  | None => throw (TypeError "cannot read properties of undefined (reading 'apply')")
  end.

(** A function value is truthy, an absent property is not. *)
Definition truthy {A} (v : option A) : bool :=
  match v with Some _ => true | None => false end.

Definition this_bullet (this : ref) : M World Bullet :=
  w <- get ;; ret (bullets w this).
Definition set_this_bullet (this : ref) (f : Bullet -> Bullet) : M World unit :=
  modify (fun w => set_bullets (<[this := f (bullets w this)]> (bullets w)) w).

Definition set_velocity (vx vy : num) (b : Bullet) : Bullet :=
  mkBullet (bullet_x b) (bullet_y b) vx vy (bullet_life b) (bullet_alive b) (bullet_bounces b).
Definition set_position (px py : num) (b : Bullet) : Bullet :=
  mkBullet px py (bullet_vx b) (bullet_vy b) (bullet_life b) (bullet_alive b) (bullet_bounces b).
Definition set_life (v : num) (b : Bullet) : Bullet :=
  mkBullet (bullet_x b) (bullet_y b) (bullet_vx b) (bullet_vy b) v (bullet_alive b) (bullet_bounces b).
Definition set_alive (v : bool) (b : Bullet) : Bullet :=
  mkBullet (bullet_x b) (bullet_y b) (bullet_vx b) (bullet_vy b) (bullet_life b) v (bullet_bounces b).
Definition set_bounces (v : num) (b : Bullet) : Bullet :=
  mkBullet (bullet_x b) (bullet_y b) (bullet_vx b) (bullet_vy b) (bullet_life b) (bullet_alive b) (Some v).

(** function.js:18-25  the replacement of [fire]. *)
Definition fastFire (orig : option (Method FireArgs Fired)) (factor : num)
  : Method FireArgs Fired :=
  fun args this =>
    b <- apply orig this args ;;
    match b with
    | FiredBullet r =>
        set_this_bullet r (fun o => set_velocity (bullet_vx o * factor) (bullet_vy o * factor) o)
    | _ => ret tt
    end ;;;
    ret b.

(** function.js:13-26 *)
Definition increaseBulletSpeed (TankClass : option TankClassObj) (factor : option num)
  : Result TankClassObj :=
  match TankClass with
  | None => Throw (JsError "increaseBulletSpeed: invalid TankClass")
  | Some cls =>
      if truthy (orig_fire_fastpatch cls) then Ok cls
      else
        let orig := proto_fire cls in
        Ok (mkTankClassObj (Some (fastFire orig (default 2 factor)))
                           (proto_updateMovement cls)
                           orig
                           (orig_update_move_deadlypatch cls))
  end.

(** The [env] argument of [enableBouncingBullets]; [env.maze] is the [maze]
    array of the world. *)
Record BounceEnv : Type := mkBounceEnv {
  b_wallPx : Wall -> num * num * num * num;
  b_segRectIntersects : num * num -> num * num -> num -> num -> num -> num -> bool;
  b_canvas : num * num;
  b_spawnExplosion : option (num -> num -> World -> World);
  b_playSFX : option (string -> World -> World)
}.

Definition callback (f : option (World -> World)) : M World unit :=
  match f with
  | Some g => modify g
  | None => ret tt
  end.

(** function.js:63-77  the loop over the walls; the answer is [bounced]. *)
Fixpoint bounceOnWalls (env : BounceEnv) (this : ref) (p0 p1 : num * num)
    (walls : list Wall) : M World bool :=
  match walls with
  | [] => ret false
  | m :: walls' =>
      let '(x, y, w, h) := b_wallPx env m in
      if b_segRectIntersects env p0 p1 x y w h then
        b <- this_bullet this ;;
        let cx := clamp (bullet_x b) x (x + w) in
        let cy := clamp (bullet_y b) y (y + h) in
        let hitVertical := Math_abs (cx - bullet_x b) >? Math_abs (cy - bullet_y b) in
        set_this_bullet this
          (fun o => if hitVertical then set_velocity (- bullet_vx o) (bullet_vy o) o
                    else set_velocity (bullet_vx o) (- bullet_vy o) o) ;;;
        b <- this_bullet this ;;
        callback (option_map (fun f => f (bullet_x b) (bullet_y b)) (b_spawnExplosion env)) ;;;
        callback (option_map (fun f => f "wall"%string) (b_playSFX env)) ;;;
        set_this_bullet this (fun o => set_bounces (default 0 (bullet_bounces o) + 1) o) ;;;
        ret true
      else bounceOnWalls env this p0 p1 walls'
  end.

(** function.js:51-95  the replacement of [update]. *)
Definition bouncingUpdate (env : BounceEnv) (maxBounces : num) : Method num unit :=
  fun dt this =>
    b <- this_bullet this ;;
    if negb (bullet_alive b) then ret tt else
    set_this_bullet this (fun o => set_bounces (default 0 (bullet_bounces o)) o) ;;;
    let nx := bullet_x b + bullet_vx b * dt in
    let ny := bullet_y b + bullet_vy b * dt in
    let p0 := (bullet_x b, bullet_y b) in
    let p1 := (nx, ny) in
    w <- get ;;
    bounced <- bounceOnWalls env this p0 p1 (maze w) ;;
    bounced <- (if negb bounced then
                  let outX := (nx <? 0) || (nx >? fst (b_canvas env)) in
                  let outY := (ny <? 0) || (ny >? snd (b_canvas env)) in
                  (if outX then set_this_bullet this (fun o => set_velocity (- bullet_vx o) (bullet_vy o) o)
                   else ret tt) ;;;
                  (if outY then set_this_bullet this (fun o => set_velocity (bullet_vx o) (- bullet_vy o) o)
                   else ret tt) ;;;
                  let bounced := outX || outY in
                  (if bounced then callback (option_map (fun f => f "wall"%string) (b_playSFX env))
                   else ret tt) ;;;
                  ret bounced
                else ret bounced) ;;
    b <- this_bullet this ;;
    let nx := if bounced then bullet_x b + bullet_vx b * dt else nx in
    let ny := if bounced then bullet_y b + bullet_vy b * dt else ny in
    set_this_bullet this (set_position nx ny) ;;;
    set_this_bullet this (fun o => set_life (bullet_life o - dt) o) ;;;
    b <- this_bullet this ;;
    if (bullet_life b <=? 0) || (maxBounces <=? default 0 (bullet_bounces b))
    then set_this_bullet this (set_alive false)
    else ret tt.

(** function.js:42-96 *)
Definition enableBouncingBullets (BulletClass : option BulletClassObj) (env : BounceEnv)
    (maxBounces : option num) : Result BulletClassObj :=
  match BulletClass with
  | None => Throw (JsError "enableBouncingBullets: invalid BulletClass")
  | Some cls =>
      if truthy (orig_update_bouncepatch cls) then Ok cls
      else
        let orig := proto_update cls in
        Ok (mkBulletClassObj (Some (bouncingUpdate env (default 3 maxBounces))) orig)
  end.

(** The [env] argument of [enableDeadlyWalls]; [env.maze] is the [maze] array
    of the world. *)
Record DeadlyEnv : Type := mkDeadlyEnv {
  d_wallPx : Wall -> num * num * num * num;
  d_circleRectCollision : num -> num -> num -> num -> num -> num -> num -> bool;
  d_onTankKilled : option (ref -> World -> World)
}.

(** The [deadly] argument: a list of indices, a predicate, or anything else. *)
Inductive Deadly : Type :=
  | DeadlyIndices (indices : list nat)
  | DeadlyPredicate (f : Wall -> nat -> bool)
  | DeadlyOther.

Definition set_deadly (m : Wall) : Wall :=
  mkWall (wall_x m) (wall_y m) (wall_w m) (wall_h m) true.

(** function.js:117-121 *)
Definition tagDeadly (deadly : Deadly) (walls : list Wall) : list Wall :=
  match deadly with
  | DeadlyIndices indices => foldl (fun ms i => alter set_deadly i ms) walls indices
  | DeadlyPredicate f => imap (fun i m => if f m i then set_deadly m else m) walls
  | DeadlyOther => walls
  end.

(** function.js:128-135  the loop over the walls. *)
Fixpoint killOnContact (env : DeadlyEnv) (this : ref) (walls : list Wall) : M World unit :=
  match walls with
  | [] => ret tt
  | m :: walls' =>
      if negb (wall_deadly m) then killOnContact env this walls'
      else
        let '(x, y, w, h) := d_wallPx env m in
        wd <- get ;;
        let t := tanks wd this in
        if d_circleRectCollision env (tank_x t) (tank_y t) (tank_radius t) x y w h
        then callback (option_map (fun f => f this) (d_onTankKilled env))
        else killOnContact env this walls'
  end.

(** function.js:126-136  the replacement of [updateMovement]. *)
Definition deadlyMovement (orig : option (Method MoveArgs unit)) (env : DeadlyEnv)
  : Method MoveArgs unit :=
  fun args this =>
    apply orig this args ;;;
    w <- get ;;
    killOnContact env this (maze w).

(** function.js:110-137 *)
Definition enableDeadlyWalls (TankClass : option TankClassObj) (env : DeadlyEnv)
    (deadly : Deadly) : M World TankClassObj :=
  match TankClass with
  | None => throw (JsError "enableDeadlyWalls: invalid TankClass")
  | Some cls =>
      modify (fun w => set_maze (tagDeadly deadly (maze w)) w) ;;;
      if truthy (orig_update_move_deadlypatch cls) then ret cls
      else
        let orig := proto_updateMovement cls in
        ret (mkTankClassObj (proto_fire cls)
                            (Some (deadlyMovement orig env))
                            (orig_fire_fastpatch cls)
                            orig)
  end.

(** A call of one of the two installers that act on the Tank class, and a
    run of such calls one after the other on the same class object. *)
Inductive TankInstall : Type :=
  | Faster (factor : option num)
  | DeadlyWalls (env : DeadlyEnv) (deadly : Deadly).

Definition installOne (i : TankInstall) (cls : TankClassObj) : M World TankClassObj :=
  match i with
  | Faster factor =>
      match increaseBulletSpeed (Some cls) factor with
      | Ok cls' => ret cls'
      | Throw e => throw e
      end
  | DeadlyWalls env deadly => enableDeadlyWalls (Some cls) env deadly
  end.

Fixpoint installAll (l : list TankInstall) (cls : TankClassObj) : M World TankClassObj :=
  match l with
  | [] => ret cls
  | i :: l' => cls' <- installOne i cls ;; installAll l' cls'
  end.

(** The same for the Bullet class, which has one installer. *)
Fixpoint bounceAll (l : list (BounceEnv * option num)) (cls : BulletClassObj)
  : Result BulletClassObj :=
  match l with
  | [] => Ok cls
  | (env, maxBounces) :: l' =>
      match enableBouncingBullets (Some cls) env maxBounces with
      | Ok cls' => bounceAll l' cls'
      | Throw e => Throw e
      end
  end.

(** ** The extra-AI controller (function.js:158-258) *)

Definition set_holdFire (v : num) (st : AgentState) : AgentState :=
  mkAgentState (hasSight st) v (unstick st) (unstickDir st) (progress st) (lastX st) (lastY st).
Definition set_hasSight (v : bool) (st : AgentState) : AgentState :=
  mkAgentState v (holdFire st) (unstick st) (unstickDir st) (progress st) (lastX st) (lastY st).
Definition set_unstick (v : num) (st : AgentState) : AgentState :=
  mkAgentState (hasSight st) (holdFire st) v (unstickDir st) (progress st) (lastX st) (lastY st).
Definition set_unstickDir (v : Z) (st : AgentState) : AgentState :=
  mkAgentState (hasSight st) (holdFire st) (unstick st) v (progress st) (lastX st) (lastY st).
Definition set_progress (v : num) (st : AgentState) : AgentState :=
  mkAgentState (hasSight st) (holdFire st) (unstick st) (unstickDir st) v (lastX st) (lastY st).
Definition set_last (vx vy : num) (st : AgentState) : AgentState :=
  mkAgentState (hasSight st) (holdFire st) (unstick st) (unstickDir st) (progress st) vx vy.

Variable env : Env.

(** A collaborator that only answers. *)
Definition query {A} (f : World -> A) : M Ctl A :=
  fun c => (Ok (f (world c)), c).

(** The object behind a reference, to read its fields. *)
Definition deref (r : ref) : M Ctl Tank :=
  query (fun w => tanks w r).

(** A collaborator that changes the world; the call is recorded. *)
Definition act (ev : Call) (f : World -> World) : M Ctl unit :=
  fun c => (Ok tt, mkCtl (f (world c)) (state c) (rng c) (calls c ++ [ev])).

Definition Math_random : M Ctl num :=
  fun c => let r := rng c O in
           (Ok r, mkCtl (world c) (state c) (fun n => rng c (S n)) (calls c ++ [CallRandom r])).

Definition canFire (e : ref) : M Ctl bool :=
  fun c => let b := tank_canFire env e (world c) in
           (Ok b, mkCtl (world c) (state c) (rng c) (calls c ++ [CallCanFire e b])).

Definition fire (e : ref) : M Ctl unit :=
  act (CallFire e) (tank_fire env e).

Definition updateMovement (e : ref) (dt : num) (turnLeft turnRight goForward goBackward : bool)
  : M Ctl unit :=
  act (CallUpdateMovement e dt turnLeft turnRight goForward goBackward)
      (tank_updateMovement env dt turnLeft turnRight goForward goBackward e).

Definition setState (e : ref) (st : AgentState) : M Ctl unit :=
  modify (fun c => mkCtl (world c) (<[e := st]> (state c)) (rng c) (calls c)).

(** function.js:198-202 *)
Definition getState (e : ref) : M Ctl AgentState :=
  c <- get ;;
  match state c !! e with
  | Some st => ret st
  | None =>
      t <- deref e ;;
      let st := mkAgentState false 0 0 0%Z 0 (tank_x t) (tank_y t) in
      setState e st ;;;
      ret st
  end.

(** function.js:209-211  the hold-fire timer: armed on a rising edge of
    [sight], then counted down while positive. *)
Definition armHoldFire (dt : num) (sight : bool) (st : AgentState) : M Ctl AgentState :=
  st <- (if sight && negb (hasSight st)
         then r <- Math_random ;; ret (set_holdFire (0.9 + r * 0.7) st)
         else ret st) ;;
  let st := set_hasSight sight st in
  ret (if holdFire st >? 0 then set_holdFire (holdFire st - dt) st else st).

(** function.js:217-222.  [enemy.x] and [enemy.y] are read after
    [ensureNav(dt)] has run. *)
Definition steerTarget (dt : num) (sight : bool) (enemy : ref) (targetAng : num) : M Ctl num :=
  if negb sight then
    act (CallEnsureNav dt) (ensureNav env dt) ;;;
    e <- deref enemy ;;
    wp <- query (fun w => navWaypoint env w (tank_x e) (tank_y e)) ;;
    match wp with
    | Some (wx, wy) => ret (angleTo env (tank_x e) (tank_y e) wx wy)
    | None => ret targetAng
    end
  else ret targetAng.

(** function.js:223-226  [angErr] is [angDiff(enemy.angle, steerTargetAng)]. *)
Definition steering (angErr leftFeel rightFeel fwdFeel : num) : num :=
  let steer := clamp angErr (-0.8) 0.8 in
  let avoid := clamp ((rightFeel - leftFeel) * 0.005) (-0.7) 0.7 in
  let panic := if fwdFeel <? 40 then (if leftFeel <? rightFeel then 0.7 else -0.7) else 0 in
  steer + (avoid + panic).

(** function.js:233-239 *)
Definition stuckDetect (dt : num) (e : Tank) (goForward : bool)
    (leftFeel rightFeel fwdFeel : num) (st : AgentState) : AgentState :=
  let moved_lt := Math_hypot_lt (tank_x e - lastX st) (tank_y e - lastY st) (8 * dt) in
  let st := if goForward && moved_lt && (fwdFeel <? 50)
            then set_progress (progress st + dt) st
            else set_progress 0 st in
  if progress st >? 0.6
  then set_progress 0
         (set_unstickDir (if leftFeel <? rightFeel then 1%Z else (-1)%Z)
            (set_unstick 0.5 st))
  else st.

(** function.js:204-251.  [st] is the object kept in the [state] map; nothing
    outside the closure can reach it, so its field writes are gathered in the
    one [setState] that follows function.js:246.  [enemy] is a reference: its
    fields are read where the source reads them, before [ensureNav(dt)]
    (function.js:206-215), after it (function.js:220-233) and after
    [updateMovement] (function.js:246). *)
Definition updateOne (dt : num) (enemy : ref) : M Ctl unit :=
  st <- getState enemy ;;
  e <- deref enemy ;;
  p <- deref (player env) ;;
  let targetAng := angleTo env (tank_x e) (tank_y e) (tank_x p) (tank_y p) in
  let diff := angDiff env (tank_angle e) targetAng in
  sight <- query (fun w => hasLineOfSight env w (tank_x e) (tank_y e) (tank_x p) (tank_y p)) ;;
  st <- armHoldFire dt sight st ;;

  leftFeel <- query (fun w => distanceToWall env w (tank_x e) (tank_y e) (tank_angle e - 0.8) 180) ;;
  rightFeel <- query (fun w => distanceToWall env w (tank_x e) (tank_y e) (tank_angle e + 0.8) 180) ;;
  fwdFeel <- query (fun w => distanceToWall env w (tank_x e) (tank_y e) (tank_angle e) 160) ;;

  steerTargetAng <- steerTarget dt sight enemy targetAng ;;
  e <- deref enemy ;;
  let steer := steering (angDiff env (tank_angle e) steerTargetAng) leftFeel rightFeel fwdFeel in

  let turnLeft := steer <? -0.06 in
  let turnRight := steer >? 0.06 in
  let goForward := fwdFeel >? 24 in
  let goBackward := false in

  let st := stuckDetect dt e goForward leftFeel rightFeel fwdFeel st in
  st <- (if unstick st >? 0 then
           let st := set_unstick (unstick st - dt) st in
           updateMovement enemy dt (unstickDir st <? 0)%Z (unstickDir st >? 0)%Z
                          (fwdFeel >? 30) (fwdFeel <=? 20) ;;;
           ret st
         else
           updateMovement enemy dt turnLeft turnRight goForward goBackward ;;;
           ret st) ;;
  e' <- deref enemy ;;
  let st := set_last (tank_x e') (tank_y e') st in
  setState enemy st ;;;

  if sight && (holdFire st <=? 0) then
    ready <- canFire enemy ;;
    if ready then
      if Math_abs diff <? 0.15 then fire enemy else ret tt
    else ret tt
  else ret tt.

(** function.js:253-255 *)
Definition updateAllAI (enemies : list ref) (dt : num) : M Ctl unit :=
  for_of enemies (updateOne dt).

(** *** One tick, read off the controller

    The values that [updateOne dt enemy] computes when it is run on [c], named
    after the locals of the source.  They are what the statements about a
    tick speak of; [updateOne_run] below shows that running [updateOne]
    yields exactly them. *)

Section Readings.

Variables (dt : num) (enemy : ref) (c : Ctl).

(** [st], as [getState(enemy)] returns it. *)
Definition tk_state : AgentState :=
  match state c !! enemy with
  | Some st => st
  | None => mkAgentState false 0 0 0%Z 0
              (tank_x (tanks (world c) enemy)) (tank_y (tanks (world c) enemy))
  end.

(** [enemy] and [player], as function.js:206-215 reads them. *)
Definition tk_enemy : Tank := tanks (world c) enemy.
Definition tk_player : Tank := tanks (world c) (player env).

(** [targetAng], [diff] and [sight] (function.js:206-208). *)
Definition tk_targetAng : num :=
  angleTo env (tank_x tk_enemy) (tank_y tk_enemy) (tank_x tk_player) (tank_y tk_player).
Definition tk_diff : num := angDiff env (tank_angle tk_enemy) tk_targetAng.
Definition tk_sight : bool :=
  hasLineOfSight env (world c) (tank_x tk_enemy) (tank_y tk_enemy)
                 (tank_x tk_player) (tank_y tk_player).

(** The test of function.js:209, and [st] after function.js:211. *)
Definition tk_rising : bool := tk_sight && negb (hasSight tk_state).
Definition tk_armed : AgentState :=
  let st := if tk_rising then set_holdFire (0.9 + rng c O * 0.7) tk_state else tk_state in
  let st := set_hasSight tk_sight st in
  if holdFire st >? 0 then set_holdFire (holdFire st - dt) st else st.

(** [leftFeel], [rightFeel], [fwdFeel] (function.js:213-215). *)
Definition tk_leftFeel : num :=
  distanceToWall env (world c) (tank_x tk_enemy) (tank_y tk_enemy) (tank_angle tk_enemy - 0.8) 180.
Definition tk_rightFeel : num :=
  distanceToWall env (world c) (tank_x tk_enemy) (tank_y tk_enemy) (tank_angle tk_enemy + 0.8) 180.
Definition tk_fwdFeel : num :=
  distanceToWall env (world c) (tank_x tk_enemy) (tank_y tk_enemy) (tank_angle tk_enemy) 160.

(** The world at function.js:220-239: [ensureNav(dt)] has run if there is no
    sight, and nothing else has changed the world so far. *)
Definition tk_navWorld : World :=
  if tk_sight then world c else ensureNav env dt (world c).

(** [enemy], as function.js:220-233 reads it. *)
Definition tk_navEnemy : Tank := tanks tk_navWorld enemy.

(** The waypoint [wp] of function.js:220, fetched when there is no sight. *)
Definition tk_waypoint : option (num * num) :=
  navWaypoint env tk_navWorld (tank_x tk_navEnemy) (tank_y tk_navEnemy).

(** [steerTargetAng] and the final [steer] (function.js:217-226). *)
Definition tk_steerTargetAng : num :=
  if tk_sight then tk_targetAng
  else match tk_waypoint with
       | Some (wx, wy) => angleTo env (tank_x tk_navEnemy) (tank_y tk_navEnemy) wx wy
       | None => tk_targetAng
       end.
Definition tk_steer : num :=
  steering (angDiff env (tank_angle tk_navEnemy) tk_steerTargetAng)
           tk_leftFeel tk_rightFeel tk_fwdFeel.

(** [st] after function.js:239; [st.unstick] there is the timer that
    function.js:240 tests. *)
Definition tk_detected : AgentState :=
  stuckDetect dt tk_navEnemy (tk_fwdFeel >? 24) tk_leftFeel tk_rightFeel tk_fwdFeel tk_armed.
Definition tk_maneuver : bool := unstick tk_detected >? 0.

(** The one [updateMovement] call of function.js:240-245. *)
Definition tk_moveCall : Call :=
  if tk_maneuver
  then CallUpdateMovement enemy dt (unstickDir tk_detected <? 0)%Z (unstickDir tk_detected >? 0)%Z
                          (tk_fwdFeel >? 30) (tk_fwdFeel <=? 20)
  else CallUpdateMovement enemy dt (tk_steer <? -0.06) (tk_steer >? 0.06) (tk_fwdFeel >? 24) false.
Definition tk_movedWorld : World :=
  if tk_maneuver
  then tank_updateMovement env dt (unstickDir tk_detected <? 0)%Z (unstickDir tk_detected >? 0)%Z
                           (tk_fwdFeel >? 30) (tk_fwdFeel <=? 20) enemy tk_navWorld
  else tank_updateMovement env dt (tk_steer <? -0.06) (tk_steer >? 0.06) (tk_fwdFeel >? 24) false
                           enemy tk_navWorld.

(** [st] after function.js:246, as the tick leaves it in the [state] map. *)
Definition tk_final : AgentState :=
  let st := if tk_maneuver then set_unstick (unstick tk_detected - dt) tk_detected
            else tk_detected in
  set_last (tank_x (tanks tk_movedWorld enemy)) (tank_y (tanks tk_movedWorld enemy)) st.

(** function.js:248-250 *)
Definition tk_ready : bool := tk_sight && (holdFire tk_final <=? 0).
Definition tk_canFire : bool := tank_canFire env enemy tk_movedWorld.
Definition tk_fires : bool := tk_ready && tk_canFire && (Math_abs tk_diff <? 0.15).

(** The calls of the tick, in order. *)
Definition tk_calls : list Call :=
  (if tk_rising then [CallRandom (rng c O)] else []) ++
  (if tk_sight then [] else [CallEnsureNav dt]) ++
  [tk_moveCall] ++
  (if tk_ready
   then CallCanFire enemy tk_canFire :: (if tk_fires then [CallFire enemy] else [])
   else []).

Definition tk_result : Ctl :=
  mkCtl (if tk_fires then tank_fire env enemy tk_movedWorld else tk_movedWorld)
        (<[enemy := tk_final]> (state c))
        (if tk_rising then fun n => rng c (S n) else rng c)
        (calls c ++ tk_calls).

End Readings.

(** Counting the calls of a trace. *)
Definition is_fire (ev : Call) : bool :=
  match ev with CallFire _ => true | _ => false end.
Definition is_move (ev : Call) : bool :=
  match ev with CallUpdateMovement _ _ _ _ _ _ => true | _ => false end.
Definition fireCount (l : list Call) : nat := length (filter is_fire l).

(** The receivers of the [updateMovement] calls of a trace, in order. *)
Definition moveReceivers (l : list Call) : list ref :=
  omap (fun ev => match ev with
                  | CallUpdateMovement e _ _ _ _ _ => Some e
                  | _ => None
                  end) l.

(** The timers of an agent are above [-D], and its progress timer is not
    negative. *)
Definition timersAbove (D : num) (st : AgentState) : Prop :=
  - D < holdFire st /\ - D < unstick st /\ 0 <= progress st.

(** What the controller relies on from the tank methods and from
    [ensureNav]: a method changes no tank but its receiver, and [ensureNav]
    changes no tank. *)
Definition onlyTouches (f : World -> World) (e : ref) : Prop :=
  forall w r, r <> e -> tanks (f w) r = tanks w r.

Record ActorsLocal : Prop := mkActorsLocal {
  move_local : forall dt l r f b e, onlyTouches (tank_updateMovement env dt l r f b e) e;
  fire_local : forall e, onlyTouches (tank_fire env e) e;
  nav_local : forall dt w r, tanks (ensureNav env dt w) r = tanks w r
}.

(** function.js:169-178  the spawn points, for a canvas of size [W] x [H]. *)
Definition spawns (W H : num) : list (num * num) :=
  [ (0.85 * W, 0.15 * H);
    (0.85 * W, 0.85 * H);
    (0.15 * W, 0.15 * H);
    (0.15 * W, 0.85 * H);
    (0.50 * W, 0.15 * H);
    (0.85 * W, 0.50 * H);
    (0.50 * W, 0.85 * H);
    (0.15 * W, 0.50 * H) ].

(** [spawns[i % spawns.length]] *)
Definition spawnAt (pts : list (num * num)) (i : nat) : num * num :=
  nth (i mod length pts) pts (0, 0).

(** function.js:186-188  the [while] loop; [remaining] is
    [spawns.length - tries].  Returns the chosen point and the new [si]. *)
Fixpoint retrySpawn (occupy : num -> num -> num -> bool) (pts : list (num * num))
    (remaining si : nat) (s : num * num) : (num * num) * nat :=
  if negb (occupy (fst s) (snd s) 20) then
    match remaining with
    | O => (s, si)
    | S remaining' => retrySpawn occupy pts remaining' (S si) (spawnAt pts si)
    end
  else (s, si).

(** What [new] can be applied to.  The constructor is code of the game: it
    runs on the arguments, may change the world and may throw; when it
    returns, the new object has the fields that it was given. *)
Definition Constructor : Type := num -> num -> option string -> M World Tank.

(** A constructor that only fills in the fields of the new object. *)
Definition plainConstructor (fields : num -> num -> option string -> Tank) : Constructor :=
  fun px py c => ret (fields px py c).

(** The new object gets a reference that is not in use. *)
Definition allocate (t : Tank) : M World ref :=
  fun w => let r := fresh (allocated w) in
           (Ok r, mkWorld (<[r := t]> (tanks w))
                          ({[r]} ∪ allocated w) (bullets w) (maze w) (game w)).

(** [new TankClass(x, y, c)].  A [TankClass] that is not a constructor makes
    [new] throw; an exception of the constructor is passed on. *)
Definition new_Tank (TankClass : option Constructor)
    (px py : num) (c : option string) : M World ref :=
  match TankClass with
  | None => throw (TypeError "TankClass is not a constructor")
  | Some construct =>
      t <- construct px py c ;;
      allocate t
  end.

Definition set_turnSpeed (v : num) (t : Tank) : Tank :=
  mkTank (tank_x t) (tank_y t) (tank_angle t) v (tank_radius t) (tank_color t) (tank_body t).
Definition set_angle (v : num) (t : Tank) : Tank :=
  mkTank (tank_x t) (tank_y t) v (tank_turnSpeed t) (tank_radius t) (tank_color t) (tank_body t).

(** function.js:190-193  [t.turnSpeed = 1.8; t.angle = angleTo(t.x, t.y, W/2, H/2)] *)
Definition aimAtCentre (W H : num) (t : Tank) : Tank :=
  let t := set_turnSpeed 1.8 t in
  set_angle (angleTo env (tank_x t) (tank_y t) (W * 0.5) (H * 0.5)) t.

(** function.js:180-194  the [for] loop, with [n] iterations left. *)
Fixpoint spawnLoop (TankClass : option Constructor)
    (colors : list string) (pts : list (num * num)) (W H : num)
    (n i si : nat) (enemies : list ref) : M World (list ref) :=
  match n with
  | O => ret enemies
  | S n' =>
      let c := colors !! (i mod length colors)%nat in
      let s := spawnAt pts si in
      let si := S si in
      let '(s, si) := match canOccupy env with
                      | Some occupy => retrySpawn occupy pts (length pts) si s
                      | None => (s, si)
                      end in
      t <- new_Tank TankClass (fst s) (snd s) c ;;
      modify (fun w => set_tanks (<[t := aimAtCentre W H (tanks w t)]> (tanks w)) w) ;;;
      spawnLoop TankClass colors pts W H n' (S i) si (enemies ++ [t])
  end.

Definition defaultColors : list string :=
  ["#f472b6"; "#f59e0b"; "#60a5fa"; "#a78bfa"]%string.

(** function.js:180  [for (let i = 0; i < count; i++)]: the body runs for
    [i = 0, 1, ...] while [i < count], that is, as many times as the least
    integer that is not below [count], and not at all when [count <= 0]
    (see [iterations_spec]). *)
Definition iterations (count : num) : nat := Z.to_nat (Qceiling count).

(** function.js:158-258.  [count] is the number of enemies asked for, any
    finite number.  [color] is absent, one colour, or a list.  The result is
    the pair [{ enemies, updateAllAI }]; the closure acts on a controller
    whose [state] map starts empty. *)
Definition spawnMoreEnemies (count : num)
    (TankClass : option Constructor)
    (color : option (string + list string))
  : M World (list ref * (num -> M Ctl unit)) :=
  let colors := match color with
                | None => defaultColors
                | Some (inl c) => [c]
                | Some (inr cs) => cs
                end in
  let '(W, H) := canvas env in
  enemies <- spawnLoop TankClass colors (spawns W H) W H (iterations count) 0 0 [] ;;
  ret (enemies, updateAllAI enemies).

(** The controller as it is right after [spawnMoreEnemies] returned. *)
Definition newCtl (w : World) (draws : nat -> num) : Ctl := mkCtl w ∅ draws [].

(** [n] frames, each calling [updateAllAI(dt)]. *)
Fixpoint runFrames (enemies : list ref) (dt : num) (n : nat) (c : Ctl) : Ctl :=
  match n with
  | O => c
  | S n' => runFrames enemies dt n' (snd (updateAllAI enemies dt c))
  end.

End Game.

Arguments Tank : clear implicits.
Arguments World : clear implicits.
Arguments Env : clear implicits.
Arguments Ctl : clear implicits.
Arguments Method : clear implicits.
Arguments TankClassObj : clear implicits.
Arguments BulletClassObj : clear implicits.
Arguments BounceEnv : clear implicits.
Arguments DeadlyEnv : clear implicits.
Arguments TankInstall : clear implicits.
Arguments Constructor : clear implicits.

(** ** A small arena, to run the definitions on concrete inputs *)

Module Arena.

(** The part of the game that the collaborators of this arena consult. *)
Record Scene : Type := mkScene {
  sc_sight : bool;
  sc_left : num;
  sc_right : num;
  sc_fwd : num;
  sc_waypoint : option (num * num);
  sc_ready : bool;
  sc_shots : nat
}.

Definition tank0 : Tank unit := mkTank 0 0 0 1 14 None tt.

Definition construct (px py : num) (c : option string) : Tank unit :=
  mkTank px py 0 1 14 c tt.

(** Tank 1 is the player, at (100, 0); every other reference is a tank at
    the origin heading along angle 0. *)
Definition tanks0 : ref -> Tank unit :=
  <[1%positive := mkTank 100 0 0 1 14 None tt]> (fun _ => tank0).

Definition bullet0 : Bullet := mkBullet 0 0 0 0 0 false None.

Definition world0 (sc : Scene) : World unit Scene :=
  mkWorld tanks0 {[1%positive]} (fun _ => bullet0) [] sc.

(** Forward moves the receiver by [10 * dt] along x. *)
Definition move (dt : num) (l r f b : bool) (e : ref) (w : World unit Scene)
  : World unit Scene :=
  let t := tanks w e in
  let t' := mkTank (if f then tank_x t + 10 * dt else tank_x t) (tank_y t) (tank_angle t)
                   (tank_turnSpeed t) (tank_radius t) (tank_color t) tt in
  set_tanks (<[e := t']> (tanks w)) w.

Definition shoot (e : ref) (w : World unit Scene) : World unit Scene :=
  let sc := game w in
  mkWorld (tanks w) (allocated w) (bullets w) (maze w)
    (mkScene (sc_sight sc) (sc_left sc) (sc_right sc) (sc_fwd sc) (sc_waypoint sc)
             (sc_ready sc) (S (sc_shots sc))).

Definition env0 : Env unit Scene := {|
  canvas := (800, 600);
  player := 1%positive;
  angleTo := fun x1 y1 x2 y2 => y2 - y1;
  angDiff := fun a b => b - a;
  hasLineOfSight := fun w _ _ _ _ => sc_sight (game w);
  ensureNav := fun _ w => w;
  navWaypoint := fun w _ _ => sc_waypoint (game w);
  distanceToWall := fun w _ _ a range =>
    if range <? 170 then sc_fwd (game w)
    else if a <? tank_angle tank0 then sc_left (game w) else sc_right (game w);
  canOccupy := Some (fun _ _ _ => true);
  tank_updateMovement := move;
  tank_canFire := fun _ w => sc_ready (game w);
  tank_fire := shoot
|}.

(** An open corridor with the player in view. *)
Definition open_view : Scene := mkScene true 180 180 160 None true 0.
(** The same corridor with the player hidden and a waypoint at (0, 1). *)
Definition hidden : Scene := mkScene false 180 180 160 (Some (0, 1)) true 0.

(** A dead end: 45 of clearance ahead, the left side closer than the right. *)
Definition dead_end : Scene := mkScene false 60 90 45 None true 0.

Definition draws0 : nat -> num := fun _ => 0.5.

(** The [enemies] of what [spawnMoreEnemies] returned. *)
Definition agents {A} (r : Result (list ref * A)) : option (list ref) :=
  match r with
  | Ok (l, _) => Some l
  | Throw _ => None
  end.

(** The tank that the runs below control. *)
Definition enemy : ref := 2%positive.

Definition ctl0 (sc : Scene) : Ctl unit Scene := newCtl (world0 sc) draws0.

(** Tank 2 has had the player in view for a while and its timers are at 0. *)
Definition engaged : AgentState := mkAgentState true 0 0 0 0 0 0.
Definition ctl_engaged (sc : Scene) : Ctl unit Scene :=
  mkCtl (world0 sc) {[2%positive := engaged]} draws0 [].

(** Tank 2 has the player in view and one second left on its hold-fire
    timer. *)
Definition waiting : AgentState := mkAgentState true 1 0 0 0 0 0.
Definition ctl_waiting (sc : Scene) : Ctl unit Scene :=
  mkCtl (world0 sc) {[2%positive := waiting]} draws0 [].

(** The same arena with tanks that cannot move (wedged against a wall). *)
Definition env_wedged : Env unit Scene := {|
  canvas := canvas env0;
  player := player env0;
  angleTo := angleTo env0;
  angDiff := angDiff env0;
  hasLineOfSight := hasLineOfSight env0;
  ensureNav := ensureNav env0;
  navWaypoint := navWaypoint env0;
  distanceToWall := distanceToWall env0;
  canOccupy := canOccupy env0;
  tank_updateMovement := fun _ _ _ _ _ _ w => w;
  tank_canFire := tank_canFire env0;
  tank_fire := tank_fire env0
|}.

(** The same arena with an [ensureNav] that pushes tank 2 to (0, 1). *)
Definition env_drift : Env unit Scene := {|
  canvas := canvas env0;
  player := player env0;
  angleTo := angleTo env0;
  angDiff := angDiff env0;
  hasLineOfSight := hasLineOfSight env0;
  ensureNav := fun _ w => set_tanks (<[2%positive := mkTank 0 1 0 1 14 None tt]> (tanks w)) w;
  navWaypoint := navWaypoint env0;
  distanceToWall := distanceToWall env0;
  canOccupy := canOccupy env0;
  tank_updateMovement := tank_updateMovement env0;
  tank_canFire := tank_canFire env0;
  tank_fire := tank_fire env0
|}.

(** The corridor of [hidden] with 45 of clearance ahead. *)
Definition hidden_narrow : Scene := mkScene false 180 180 45 (Some (0, 1)) true 0.

(** A constructor that registers each tank it builds in the scene, and one
    that always throws. *)
Definition countingConstructor : Constructor unit Scene :=
  fun px py c w => (Ok (construct px py c), shoot 1%positive w).
Definition failingConstructor : Constructor unit Scene :=
  fun _ _ _ => throw (JsError "out of tanks").

(** A Tank class whose [fire] puts a bullet of velocity (10, -4) behind
    reference 7 and returns it, and whose [updateMovement] does nothing. *)
Definition fire0 : Method unit Scene unit Fired :=
  fun _ _ w =>
    (Ok (FiredBullet 7%positive),
     set_bullets (<[7%positive := mkBullet 0 0 10 (-4) 2 true None]> (bullets w)) w).

Definition move0 : Method unit Scene unit unit := fun _ _ => ret tt.

Definition update0 : Method unit Scene num unit := fun _ _ => ret tt.

Definition TankClass0 : TankClassObj unit Scene unit unit :=
  mkTankClassObj (Some fire0) (Some move0) None None.

Definition BulletClass0 : BulletClassObj unit Scene :=
  mkBulletClassObj (Some update0) None.

Definition bounceEnv0 : BounceEnv unit Scene :=
  mkBounceEnv (fun m => (wall_x m, wall_y m, wall_w m, wall_h m))
              (fun _ _ _ _ _ _ => false) (800, 600) None None.

Definition deadlyEnv0 : DeadlyEnv unit Scene :=
  mkDeadlyEnv (fun m => (wall_x m, wall_y m, wall_w m, wall_h m))
              (fun _ _ _ _ _ _ _ => false) None.

(** A world with bullet 7 at (795, 300) flying right at 100 per second, and
    with two walls. *)
Definition world_shot : World unit Scene :=
  mkWorld tanks0 {[1%positive]}
          (<[7%positive := mkBullet 795 300 100 0 2 true None]> (fun _ => bullet0))
          [mkWall 0 0 800 10 false; mkWall 0 590 800 10 false]
          open_view.

End Arena.

(** ** The steering value in the words of the specification

    [clampTo v lo hi] is [v] limited to the interval from [lo] to [hi];
    [steer_spec] is "steer = base + avoidance + panic". *)

Definition clampTo (v lo hi : num) : num :=
  if v <? lo then lo else if hi <? v then hi else v.

Definition steer_spec (angErr leftClearance rightClearance forwardClearance : num) : num :=
  let base := clampTo angErr (-0.8) 0.8 in
  let avoidance := clampTo ((rightClearance - leftClearance) * 0.005) (-0.7) 0.7 in
  let panic := if forwardClearance <? 40
               then (if leftClearance <? rightClearance then 0.7 else -0.7)
               else 0 in
  base + avoidance + panic.

(** ** Readings of the patched methods and of the spawn loop *)

Section PatchReadings.

Context {Body Game : Type}.

(** The test of function.js:129-131: wall [m] is deadly and overlaps the
    circle of tank [t]. *)
Definition lethal (env : DeadlyEnv Body Game) (t : Tank Body) (m : Wall) : bool :=
  wall_deadly m &&
  (let '(x, y, w, h) := d_wallPx env m in
   d_circleRectCollision env (tank_x t) (tank_y t) (tank_radius t) x y w h).

(** [onTankKilled(this)], when it is a function. *)
Definition killed (env : DeadlyEnv Body Game) (this : ref) (w : World Body Game)
  : World Body Game :=
  match d_onTankKilled env with
  | Some k => k this w
  | None => w
  end.

End PatchReadings.

Section BounceReadings.

Context {Body Game : Type}.

(** The test of function.js:64-65: the step from [p0] to [p1] crosses wall [m]. *)
Definition hitsWall (env : BounceEnv Body Game) (p0 p1 : num * num) (m : Wall) : bool :=
  let '(x, y, w, h) := b_wallPx env m in
  b_segRectIntersects env p0 p1 x y w h.

(** The effect callbacks leave bullet [this] as it is. *)
Definition quietCallbacks (env : BounceEnv Body Game) (this : ref) : Prop :=
  (forall f px py w, b_spawnExplosion env = Some f -> bullets (f px py w) this = bullets w this)
  /\ (forall f s w, b_playSFX env = Some f -> bullets (f s w) this = bullets w this).

End BounceReadings.

Section SpawnReadings.

Context {Body Game : Type}.

(** Every spawn point can be occupied, or there is no [canOccupy] to ask. *)
Definition allSpawnsFree (env : Env Body Game) (pts : list (num * num)) : Prop :=
  match canOccupy env with
  | Some occupy => forall j, occupy (fst (spawnAt pts j)) (snd (spawnAt pts j)) 20 = true
  | None => True
  end.


(** The constructor leaves alone what is there when it is called: the
    references in use and the tanks behind them, the bullets and the maze. *)
Definition constructorLocal (construct : Constructor Body Game) : Prop :=
  forall px py c w,
    let w' := snd (construct px py c w) in
    allocated w ⊆ allocated w'
    /\ (forall r, r ∈ allocated w -> tanks w' r = tanks w r)
    /\ bullets w' = bullets w
    /\ maze w' = maze w.

(** The colours that [spawnMoreEnemies] cycles through (function.js:164). *)
Definition colorsOf (color : option (string + list string)) : list string :=
  match color with
  | None => defaultColors
  | Some (inl c) => [c]
  | Some (inr cs) => cs
  end.

End SpawnReadings.

(** The timers of an agent are at most what the controller ever sets them
    to, and the unstick direction is -1, 0 or +1. *)
Definition timersBelow (st : AgentState) : Prop :=
  holdFire st <= 1.6 /\ unstick st <= 0.5 /\ progress st <= 0.6
  /\ (unstickDir st = (-1)%Z \/ unstickDir st = 0%Z \/ unstickDir st = 1%Z).

(** * Properties *)

(** ** Comparisons *)

Lemma ltb_lt (a b : num) : (a <? b) = true <-> a < b.
Proof.
  unfold ltb. rewrite negb_true_iff, <- not_true_iff_false, Qle_bool_iff.
  split; intros H; [apply Qnot_le_lt, H | apply Qlt_not_le, H].
Qed.

Lemma ltb_ge (a b : num) : (a <? b) = false <-> b <= a.
Proof.
  unfold ltb. rewrite negb_false_iff. apply Qle_bool_iff.
Qed.

Lemma leb_le (a b : num) : (a <=? b) = true <-> a <= b.
Proof. apply Qle_bool_iff. Qed.

Lemma leb_gt (a b : num) : (a <=? b) = false <-> b < a.
Proof.
  unfold leb. rewrite <- not_true_iff_false, Qle_bool_iff.
  split; intros H; [apply Qnot_le_lt, H | apply Qlt_not_le, H].
Qed.

Lemma gtb_gt (a b : num) : (a >? b) = true <-> b < a.
Proof. apply ltb_lt. Qed.

Lemma gtb_le (a b : num) : (a >? b) = false <-> a <= b.
Proof. apply ltb_ge. Qed.

(** Case analysis on a comparison, leaving the order fact in the context. *)
Ltac cmp a b :=
  let H := fresh "Hcmp" in
  destruct (ltb a b) eqn:H; [apply ltb_lt in H | apply ltb_ge in H].
Ltac no_cmp t := lazymatch t with context [ltb _ _] => fail | _ => idtac end.
Ltac cmp_all :=
  repeat match goal with |- context [ltb ?a ?b] => no_cmp a; no_cmp b; cmp a b end.

(** ** Running one tick *)

Section Tick.

Context {Body Game : Type} (env : Env Body Game).
Implicit Types (c : Ctl Body Game) (st : AgentState).

Lemma getState_run enemy c :
  getState enemy c =
    (Ok (tk_state enemy c),
     mkCtl (world c) (<[enemy := tk_state enemy c]> (state c)) (rng c) (calls c)).
Proof.
  unfold getState, tk_state, bind, get. destruct (state c !! enemy) as [st|] eqn:E; cbn.
  - unfold ret. f_equal. destruct c; cbn in *. f_equal. symmetry. by apply insert_id.
  - reflexivity.
Qed.

Lemma armHoldFire_run dt sight st c :
  armHoldFire dt sight st c =
    (let rising := sight && negb (hasSight st) in
     let st1 := if rising then set_holdFire (0.9 + rng c O * 0.7) st else st in
     let st2 := set_hasSight sight st1 in
     (Ok (if holdFire st2 >? 0 then set_holdFire (holdFire st2 - dt) st2 else st2),
      if rising
      then mkCtl (world c) (state c) (fun n => rng c (S n)) (calls c ++ [CallRandom (rng c O)])
      else c)).
Proof.
  unfold armHoldFire, bind, Math_random, ret. cbn.
  destruct (sight && negb (hasSight st)); reflexivity.
Qed.

Lemma steerTarget_run dt sight enemy targetAng c :
  steerTarget env dt sight enemy targetAng c =
    if sight then (Ok targetAng, c)
    else let w := ensureNav env dt (world c) in
         let e := tanks w enemy in
         (Ok (match navWaypoint env w (tank_x e) (tank_y e) with
              | Some (wx, wy) => angleTo env (tank_x e) (tank_y e) wx wy
              | None => targetAng
              end),
          mkCtl w (state c) (rng c) (calls c ++ [CallEnsureNav dt])).
Proof.
  unfold steerTarget, bind, act, deref, query, ret. destruct sight; cbn; [reflexivity|].
  destruct (navWaypoint env _ _ _) as [[wx wy]|]; reflexivity.
Qed.

Lemma updateOne_run dt enemy c :
  updateOne env dt enemy c = (Ok tt, tk_result env dt enemy c).
Proof.
  unfold updateOne.
  unfold bind at 1. rewrite getState_run.
  unfold deref, query, bind; cbn [world state rng calls].
  rewrite armHoldFire_run. cbn zeta. cbn [world state rng calls].
  fold (tk_enemy enemy c) (tk_player env c).
  fold (tk_sight env enemy c). fold (tk_rising env enemy c).
  fold (tk_targetAng env enemy c). fold (tk_diff env enemy c).
  fold (tk_armed env dt enemy c).
  rewrite steerTarget_run.
  unfold tk_result, tk_calls, tk_fires, tk_ready, tk_canFire, tk_final, tk_movedWorld,
    tk_moveCall, tk_maneuver, tk_detected, tk_steer, tk_steerTargetAng, tk_waypoint,
    tk_navEnemy, tk_navWorld, tk_leftFeel, tk_rightFeel, tk_fwdFeel, tk_enemy.
  destruct (tk_rising env enemy c) eqn:Hr; cbn [world state rng calls];
    destruct (tk_sight env enemy c) eqn:Hs; cbn [world state rng calls fst snd].
  all: unfold updateMovement, act, ret, setState, modify, canFire, fire, act.
  all: repeat (match goal with |- context [if ?b then _ else _] =>
                 lazymatch b with
                 | context [if _ then _ else _] => fail
                 | _ => destruct b eqn:?
                 end
               end; cbn -[steering stuckDetect Math_abs ltb leb gtb]).
  all: cbn -[steering stuckDetect Math_abs ltb leb gtb].
  all: rewrite ?insert_insert_eq, <- ?app_assoc.
  all: reflexivity.
Qed.

Lemma updateOne_state dt enemy c :
  state (snd (updateOne env dt enemy c)) !! enemy = Some (tk_final env dt enemy c).
Proof. rewrite updateOne_run. cbn. apply lookup_insert_eq. Qed.

Lemma updateOne_calls dt enemy c :
  calls (snd (updateOne env dt enemy c)) = calls c ++ tk_calls env dt enemy c.
Proof. rewrite updateOne_run. reflexivity. Qed.

(** The detection and maneuver steps leave the sight fields alone. *)
Lemma stuckDetect_holdFire dt (e : Tank Body) gf l r f st :
  holdFire (stuckDetect dt e gf l r f st) = holdFire st
  /\ hasSight (stuckDetect dt e gf l r f st) = hasSight st.
Proof.
  unfold stuckDetect.
  destruct (gf && _ && _); cbn; destruct (_ >? 0.6); cbn; auto.
Qed.

Lemma tk_final_holdFire dt enemy c :
  holdFire (tk_final env dt enemy c) = holdFire (tk_armed env dt enemy c)
  /\ hasSight (tk_final env dt enemy c) = hasSight (tk_armed env dt enemy c).
Proof.
  unfold tk_final, tk_detected.
  destruct (tk_maneuver env dt enemy c); cbn; apply stuckDetect_holdFire.
Qed.

Lemma fireCount_app l1 l2 : fireCount (l1 ++ l2) = (fireCount l1 + fireCount l2)%nat.
Proof. unfold fireCount. by rewrite filter_app, length_app. Qed.

Lemma tk_calls_fireCount dt enemy c :
  fireCount (tk_calls env dt enemy c) = if tk_fires env dt enemy c then 1%nat else 0%nat.
Proof.
  unfold tk_calls, tk_fires. rewrite !fireCount_app.
  destruct (tk_rising env enemy c), (tk_sight env enemy c), (tk_ready env dt enemy c);
    unfold tk_moveCall; destruct (tk_maneuver env dt enemy c); cbn;
    try reflexivity;
    destruct (tk_canFire env dt enemy c); cbn; try reflexivity;
    destruct (Math_abs _ <? 0.15); reflexivity.
Qed.

Lemma tk_calls_fire_only dt enemy c r :
  In (CallFire r) (tk_calls env dt enemy c) -> r = enemy /\ tk_fires env dt enemy c = true.
Proof.
  unfold tk_calls. rewrite !in_app_iff. intros [H|[H|[H|H]]].
  - destruct (tk_rising env enemy c); cbn in H; [destruct H as [H|[]]; discriminate | destruct H].
  - destruct (tk_sight env enemy c); cbn in H; [destruct H | destruct H as [H|[]]; discriminate].
  - unfold tk_moveCall in H. destruct (tk_maneuver env dt enemy c);
      cbn in H; destruct H as [H|[]]; discriminate.
  - destruct (tk_ready env dt enemy c); [|destruct H].
    destruct H as [H|H]; [discriminate|].
    destruct (tk_fires env dt enemy c); [|destruct H].
    destruct H as [H|[]]. by inversion H.
Qed.

(** Arming the hold-fire timer leaves the stuck-detection fields alone. *)
Lemma tk_armed_fields dt enemy c :
  let st := tk_state enemy c in
  let st1 := tk_armed env dt enemy c in
  unstick st1 = unstick st /\ unstickDir st1 = unstickDir st
  /\ progress st1 = progress st /\ lastX st1 = lastX st /\ lastY st1 = lastY st.
Proof.
  cbn zeta. unfold tk_armed.
  destruct (tk_rising env enemy c); cbn; destruct (_ >? 0); cbn; auto.
Qed.

Lemma tk_calls_moves dt enemy c :
  filter is_move (tk_calls env dt enemy c) = [tk_moveCall env dt enemy c].
Proof.
  unfold tk_calls. rewrite !filter_app.
  assert (Hm : is_move (tk_moveCall env dt enemy c) = true)
    by (unfold tk_moveCall; destruct (tk_maneuver env dt enemy c); reflexivity).
  destruct (tk_rising env enemy c), (tk_sight env enemy c), (tk_ready env dt enemy c),
    (tk_fires env dt enemy c); cbn; rewrite ?Hm; cbn; try reflexivity;
    unfold filter; cbn; rewrite ?Hm; try reflexivity.
Qed.

End Tick.

(** ** What one tick does *)

Section TickProperties.

Context {Body Game : Type} (env : Env Body Game).
Implicit Types (c : Ctl Body Game) (st : AgentState).

(** C1.  In the tick of [enemy], [fire()] is invoked exactly when there is
    sight, the hold-fire timer (as the tick leaves it, which is the value the
    test of function.js:248 reads) is at most 0, [canFire()] answers true and
    the facing error to the player is below 0.15 in absolute value.  It is
    invoked at most once, only on [enemy], exactly once when the four
    conditions hold, and never while the timer is positive. *)
Theorem fire_decision dt enemy c :
  exists st' new,
    state (snd (updateOne env dt enemy c)) !! enemy = Some st'
    /\ calls (snd (updateOne env dt enemy c)) = calls c ++ new
    /\ (In (CallFire enemy) new <->
          tk_sight env enemy c = true /\ holdFire st' <= 0
          /\ tk_canFire env dt enemy c = true /\ Qabs (tk_diff env enemy c) < 0.15)
    /\ (In (CallFire enemy) new <-> fireCount new = 1%nat)
    /\ (~ In (CallFire enemy) new <-> fireCount new = 0%nat)
    /\ (forall r, In (CallFire r) new -> r = enemy)
    /\ (0 < holdFire st' -> fireCount new = 0%nat).
Proof.
  exists (tk_final env dt enemy c), (tk_calls env dt enemy c).
  assert (Hfire : In (CallFire enemy) (tk_calls env dt enemy c)
                  <-> tk_fires env dt enemy c = true).
  { split; [intros H; apply tk_calls_fire_only in H; apply H|].
    intros H. unfold tk_calls. rewrite !in_app_iff. do 3 right.
    unfold tk_fires in *. destruct (tk_ready env dt enemy c); [|discriminate].
    right. rewrite H. by left. }
  assert (Hiff : tk_fires env dt enemy c = true <->
            tk_sight env enemy c = true /\ holdFire (tk_final env dt enemy c) <= 0
            /\ tk_canFire env dt enemy c = true /\ Qabs (tk_diff env enemy c) < 0.15).
  { unfold tk_fires, tk_ready, Math_abs.
    rewrite !andb_true_iff, leb_le, ltb_lt. tauto. }
  split; [apply updateOne_state|].
  split; [apply updateOne_calls|].
  split; [rewrite Hfire; exact Hiff|].
  rewrite Hfire, tk_calls_fireCount.
  split; [destruct (tk_fires env dt enemy c); split; congruence|].
  split; [destruct (tk_fires env dt enemy c); split; congruence|].
  split; [intros r H; apply tk_calls_fire_only in H; apply H|].
  intros Hpos. destruct (tk_fires env dt enemy c); [|reflexivity].
  destruct Hiff as [Hiff _]. destruct (Hiff eq_refl) as (_ & Hle & _). lra.
Qed.

(** C2.  When there is sight in this tick and there was none in the previous
    one ([hasSight] is what the previous tick stored), the hold-fire timer is
    set to [0.9 + r * 0.7] for the draw [r] of [Math.random], a value in
    [0.9, 1.6); on any other tick it is not set.  In both cases the timer is
    then decreased by [dt] if it is positive, and the tick stores this tick's
    sight for the next one. *)
Theorem holdFire_edge dt enemy c (Hr : 0 <= rng c O < 1) :
  exists st',
    state (snd (updateOne env dt enemy c)) !! enemy = Some st'
    /\ let st := tk_state enemy c in
       let sight := tk_sight env enemy c in
       let reset := 0.9 + rng c O * 0.7 in
       let timer := if sight && negb (hasSight st) then reset else holdFire st in
       holdFire st' = (if timer >? 0 then timer - dt else timer)
       /\ hasSight st' = sight
       /\ 0.9 <= reset < 1.6
       /\ (sight && negb (hasSight st) = true ->
            In (CallRandom (rng c O)) (calls (snd (updateOne env dt enemy c))))
       /\ (sight && negb (hasSight st) = false ->
            rng (snd (updateOne env dt enemy c)) = rng c).
Proof.
  exists (tk_final env dt enemy c).
  split; [apply updateOne_state|].
  destruct (tk_final_holdFire env dt enemy c) as [-> ->].
  cbn zeta. fold (tk_rising env enemy c).
  rewrite updateOne_calls, updateOne_run. cbn [snd rng].
  unfold tk_armed, tk_calls.
  destruct (tk_rising env enemy c) eqn:E; cbn;
    (repeat split; [ destruct (_ >? 0); reflexivity
                   | destruct (_ >? 0); reflexivity
                   | lra | lra | .. ]); try discriminate.
  - intros _. apply in_app_iff. right. by left.
  - intros _. unfold tk_result. cbn. by rewrite E.
Qed.

Lemma clamp_clampTo v lo hi : lo <= hi -> clamp v lo hi == clampTo v lo hi.
Proof.
  intros Hle. unfold clamp, clampTo, Math_max, Math_min.
  cmp_all; lra.
Qed.

Lemma clampTo_bounds v lo hi : lo <= hi -> lo <= clampTo v lo hi <= hi.
Proof.
  intros Hle. unfold clampTo. cmp v lo; [lra|]. cmp hi v; lra.
Qed.

(** C3.  The steering value of a tick is [base + avoidance + panic], with
    [base] the angle error to the steering target limited to [-0.8, 0.8],
    [avoidance] the clearance difference times 0.005 limited to [-0.7, 0.7],
    and [panic] 0.7, -0.7 or 0.  The sum is not limited again: it stays within
    2.2 in absolute value, and reaches 2.2, beyond 0.8. *)
Theorem steering_sum dt enemy c :
  (forall angErr l r f, steering angErr l r f == steer_spec angErr l r f)
  /\ tk_steer env dt enemy c ==
       steer_spec (angDiff env (tank_angle (tk_navEnemy env dt enemy c))
                           (tk_steerTargetAng env dt enemy c))
                  (tk_leftFeel env enemy c) (tk_rightFeel env enemy c) (tk_fwdFeel env enemy c)
  /\ (forall angErr l r f, Qabs (steering angErr l r f) <= 2.2)
  /\ steering 1 0 180 10 == 2.2
  /\ 0.8 < Qabs (steering 1 0 180 10).
Proof.
  assert (Heq : forall angErr l r f, steering angErr l r f == steer_spec angErr l r f).
  { intros. unfold steering, steer_spec.
    rewrite !clamp_clampTo by lra. ring. }
  split; [exact Heq|]. split; [apply Heq|].
  split; [|split; vm_compute; reflexivity].
  intros angErr l r f. rewrite Heq. unfold steer_spec.
  pose proof (clampTo_bounds angErr (-0.8) 0.8) as H1.
  pose proof (clampTo_bounds ((r - l) * 0.005) (-0.7) 0.7) as H2.
  apply Qabs_Qle_condition.
  cmp f 40; [cmp l r|]; lra.
Qed.

(** C4.  The progress timer grows by [dt] exactly when the agent is told to
    go forward ([fwdFeel > 24]), has moved less than [8 * dt] since the
    previous tick and has less than 50 of clearance ahead; otherwise it
    returns to 0.  The displacement is taken from the position that the
    tank has at function.js:233, which is its position after [ensureNav(dt)]
    on a tick without sight.  When the timer then exceeds 0.6 the stuck timer
    is set to 0.5 (the maneuver step of the same tick takes [dt] off it at
    once), the unstick direction to +1 if the left clearance is the smaller
    one and to -1 otherwise, and the progress timer returns to 0. *)
Theorem stuck_detection dt enemy c :
  exists st',
    state (snd (updateOne env dt enemy c)) !! enemy = Some st'
    /\ let st := tk_state enemy c in
       let e := tanks (if tk_sight env enemy c then world c
                       else ensureNav env dt (world c)) enemy in
       let leftFeel := tk_leftFeel env enemy c in
       let rightFeel := tk_rightFeel env enemy c in
       let fwdFeel := tk_fwdFeel env enemy c in
       let goForward := fwdFeel >? 24 in
       let stalled := goForward
                      && Math_hypot_lt (tank_x e - lastX st) (tank_y e - lastY st) (8 * dt)
                      && (fwdFeel <? 50) in
       let timer := if stalled then progress st + dt else 0 in
       if timer >? 0.6
       then progress st' = 0
            /\ unstick (tk_detected env dt enemy c) = 0.5
            /\ unstick st' = 0.5 - dt
            /\ unstickDir st' = (if leftFeel <? rightFeel then 1%Z else (-1)%Z)
       else progress st' = timer
            /\ unstick (tk_detected env dt enemy c) = unstick st
            /\ unstickDir st' = unstickDir st.
Proof.
  exists (tk_final env dt enemy c).
  split; [apply updateOne_state|].
  cbn zeta.
  destruct (tk_armed_fields env dt enemy c) as (Hu & Hd & Hp & Hx & Hy). cbn zeta in *.
  unfold tk_final, tk_maneuver, tk_detected, tk_navEnemy, tk_navWorld, stuckDetect.
  rewrite Hx, Hy, Hp.
  destruct (_ && _ && _); cbn [progress set_progress];
    destruct (_ >? 0.6) eqn:Ht; cbn.
  - change (0.5 >? 0) with true. cbn. auto.
  - destruct (_ >? 0); cbn; auto.
  - change (0.5 >? 0) with true. cbn. auto.
  - destruct (_ >? 0); cbn; auto.
Qed.

(** C7.  The tick issues exactly one [updateMovement].  When the stuck timer
    is positive at function.js:240 (after this tick's detection step), it is
    decreased by [dt] and the call is
    [updateMovement(dt, dir < 0, dir > 0, fwdFeel > 30, fwdFeel <= 20)];
    otherwise the timer is left as it is and the call carries the steering
    flags [steer < -0.06], [steer > 0.06], [fwdFeel > 24], [false], where
    [steer] comes from the angle that the tank has at function.js:223 (after
    [ensureNav(dt)] on a tick without sight) and from the clearances taken
    at function.js:213-215.  A timer that is positive when the tick starts is
    still positive at function.js:240. *)
Theorem maneuver_override dt enemy c :
  exists st' new,
    state (snd (updateOne env dt enemy c)) !! enemy = Some st'
    /\ calls (snd (updateOne env dt enemy c)) = calls c ++ new
    /\ let e := tanks (if tk_sight env enemy c then world c
                       else ensureNav env dt (world c)) enemy in
       let fwdFeel := tk_fwdFeel env enemy c in
       let detected := stuckDetect dt e (fwdFeel >? 24) (tk_leftFeel env enemy c)
                                   (tk_rightFeel env enemy c) fwdFeel
                                   (tk_armed env dt enemy c) in
       let timer := unstick detected in
       let dir := unstickDir detected in
       let steer := steering (angDiff env (tank_angle e) (tk_steerTargetAng env dt enemy c))
                             (tk_leftFeel env enemy c) (tk_rightFeel env enemy c) fwdFeel in
       unstickDir st' = dir
       /\ (0 < unstick (tk_state enemy c) -> 0 < timer)
       /\ (0 < timer ->
            unstick st' = timer - dt
            /\ filter is_move new =
                 [CallUpdateMovement enemy dt (dir <? 0)%Z (dir >? 0)%Z
                                     (fwdFeel >? 30) (fwdFeel <=? 20)])
       /\ (timer <= 0 ->
            unstick st' = timer
            /\ filter is_move new =
                 [CallUpdateMovement enemy dt (steer <? -0.06) (steer >? 0.06)
                                     (fwdFeel >? 24) false]).
Proof.
  exists (tk_final env dt enemy c), (tk_calls env dt enemy c).
  split; [apply updateOne_state|].
  split; [apply updateOne_calls|].
  cbn zeta. rewrite tk_calls_moves.
  fold (tk_navWorld env dt enemy c). fold (tk_navEnemy env dt enemy c).
  fold (tk_detected env dt enemy c). fold (tk_steer env dt enemy c).
  unfold tk_final, tk_moveCall, tk_maneuver.
  assert (Hpre : 0 < unstick (tk_state enemy c) -> 0 < unstick (tk_detected env dt enemy c)).
  { destruct (tk_armed_fields env dt enemy c) as (Hu & _). cbn zeta in Hu.
    unfold tk_detected, stuckDetect.
    destruct (_ && _ && _); cbn [progress set_progress];
      destruct (_ >? 0.6); cbn; rewrite ?Hu; lra. }
  destruct (unstick (tk_detected env dt enemy c) >? 0) eqn:E;
    [apply gtb_gt in E | apply gtb_le in E]; cbn;
    (split; [reflexivity|]); (split; [exact Hpre|]);
    split; intros H; try (exfalso; lra); auto.
Qed.

(** C8.  With sight the steering target is the bearing to the player.
    Without sight, [ensureNav(dt)] runs and the waypoint is fetched for the
    position that the tank has then: if there is one the target is the
    bearing from that position to it, else the bearing to the player
    computed at function.js:206.  This target is the one that the steering
    flags of the tick come from. *)
Theorem steering_target dt enemy c :
  let e0 := tk_enemy enemy c in
  let toPlayer := angleTo env (tank_x e0) (tank_y e0)
                          (tank_x (tk_player env c)) (tank_y (tk_player env c)) in
  let w := ensureNav env dt (world c) in
  let e := tanks w enemy in
  let viaNav := match navWaypoint env w (tank_x e) (tank_y e) with
                | Some (wx, wy) => angleTo env (tank_x e) (tank_y e) wx wy
                | None => toPlayer
                end in
  let target := if tk_sight env enemy c then toPlayer else viaNav in
  let angle := tank_angle (if tk_sight env enemy c then e0 else e) in
  let steer := steering (angDiff env angle target)
                        (tk_leftFeel env enemy c) (tk_rightFeel env enemy c)
                        (tk_fwdFeel env enemy c) in
  fst (steerTarget env dt (tk_sight env enemy c) enemy toPlayer c) = Ok target
  /\ fst (steerTarget env dt true enemy toPlayer c) = Ok toPlayer
  /\ fst (steerTarget env dt false enemy toPlayer c) = Ok viaNav
  /\ world (snd (steerTarget env dt false enemy toPlayer c)) = w
  /\ exists new,
       calls (snd (updateOne env dt enemy c)) = calls c ++ new
       /\ (unstick (tk_detected env dt enemy c) <= 0 ->
            filter is_move new =
              [CallUpdateMovement enemy dt (steer <? -0.06) (steer >? 0.06)
                                  (tk_fwdFeel env enemy c >? 24) false]).
Proof.
  cbn zeta. rewrite !steerTarget_run.
  split; [destruct (tk_sight env enemy c); reflexivity|].
  split; [reflexivity|]. split; [reflexivity|]. split; [reflexivity|].
  exists (tk_calls env dt enemy c). split; [apply updateOne_calls|].
  intros Hle. rewrite tk_calls_moves. unfold tk_moveCall, tk_maneuver.
  destruct (unstick (tk_detected env dt enemy c) >? 0) eqn:E;
    [apply gtb_gt in E; exfalso; lra |].
  unfold tk_steer, tk_steerTargetAng, tk_waypoint, tk_navEnemy, tk_navWorld, tk_targetAng.
  destruct (tk_sight env enemy c); reflexivity.
Qed.

(** C5 (amended).  The timers are counted down by [dt] while positive, with
    no floor at 0: after a tick with [0 < dt <= D] the hold-fire timer and the
    stuck timer are above [-D] (above [-dt] when they were not negative
    before), and the progress timer is not negative. *)
Theorem timers_bounded_below D dt enemy c
    (Hdt : 0 < dt) (HD : dt <= D) (Hr : 0 <= rng c O)
    (Hst : timersAbove D (tk_state enemy c)) :
  exists st',
    state (snd (updateOne env dt enemy c)) !! enemy = Some st'
    /\ timersAbove D st'.
Proof.
  exists (tk_final env dt enemy c).
  split; [apply updateOne_state|].
  destruct Hst as (Hh & Hu & Hp).
  destruct (tk_final_holdFire env dt enemy c) as [Hf _].
  destruct (tk_armed_fields env dt enemy c) as (Eu & Ed & Ep & Ex & Ey). cbn zeta in *.
  unfold timersAbove. rewrite Hf. split.
  - unfold tk_armed. destruct (tk_rising env enemy c); cbn;
      match goal with |- context [?a >? 0] =>
        destruct (a >? 0) eqn:E; [apply gtb_gt in E | apply gtb_le in E] end; cbn; lra.
  - unfold tk_final, tk_maneuver, tk_detected, stuckDetect.
    rewrite Ex, Ey, Ep.
    destruct (_ && _ && _); cbn [progress set_progress];
      match goal with |- context [?a >? 0.6] =>
        destruct (a >? 0.6) eqn:E6; [apply gtb_gt in E6 | apply gtb_le in E6] end; cbn;
      rewrite ?Eu;
      match goal with |- context [?a >? 0] =>
        destruct (a >? 0) eqn:E; [apply gtb_gt in E | apply gtb_le in E] end; cbn;
      rewrite ?Eu; lra.
Qed.

End TickProperties.

(** ** The batch update *)

Section Batch.

Context {Body Game : Type} (env : Env Body Game).
Implicit Types (c : Ctl Body Game) (enemies : list ref).

Lemma updateOne_ok dt enemy c : fst (updateOne env dt enemy c) = Ok tt.
Proof. by rewrite updateOne_run. Qed.

Lemma updateOne_state_other dt enemy c r :
  r <> enemy -> state (snd (updateOne env dt enemy c)) !! r = state c !! r.
Proof. intros Hne. rewrite updateOne_run. cbn. by apply lookup_insert_ne. Qed.

Lemma updateOne_tanks_other dt enemy c r :
  ActorsLocal env -> r <> enemy ->
  tanks (world (snd (updateOne env dt enemy c))) r = tanks (world c) r.
Proof.
  intros [Hmove Hfire Hnav] Hne. rewrite updateOne_run. cbn.
  assert (Hmoved : tanks (tk_movedWorld env dt enemy c) r = tanks (world c) r).
  { unfold tk_movedWorld.
    transitivity (tanks (tk_navWorld env dt enemy c) r).
    - destruct (tk_maneuver env dt enemy c); by apply Hmove.
    - unfold tk_navWorld. destruct (tk_sight env enemy c); [reflexivity | apply Hnav]. }
  destruct (tk_fires env dt enemy c); [|exact Hmoved].
  rewrite <- Hmoved. by apply Hfire.
Qed.

Lemma updateOne_moveReceivers dt enemy c :
  moveReceivers (tk_calls env dt enemy c) = [enemy].
Proof.
  unfold tk_calls, moveReceivers. rewrite !omap_app.
  assert (Hm : omap (fun ev => match ev with
                               | CallUpdateMovement e _ _ _ _ _ => Some e
                               | _ => None
                               end) [tk_moveCall env dt enemy c] = [enemy])
    by (unfold tk_moveCall; destruct (tk_maneuver env dt enemy c); reflexivity).
  rewrite Hm.
  destruct (tk_rising env enemy c), (tk_sight env enemy c), (tk_ready env dt enemy c),
    (tk_fires env dt enemy c); reflexivity.
Qed.

Lemma updateAllAI_cons dt e enemies c :
  updateAllAI env (e :: enemies) dt c = updateAllAI env enemies dt (snd (updateOne env dt e c)).
Proof.
  unfold updateAllAI. cbn [for_of]. unfold bind at 1.
  by rewrite updateOne_run.
Qed.

(** The tick of an agent reads no entry of the state map but its own. *)
Lemma updateOne_reads_own dt enemy c1 c2 :
  world c1 = world c2 -> rng c1 = rng c2 -> state c1 !! enemy = state c2 !! enemy ->
  tk_final env dt enemy c1 = tk_final env dt enemy c2
  /\ tk_calls env dt enemy c1 = tk_calls env dt enemy c2
  /\ world (snd (updateOne env dt enemy c1)) = world (snd (updateOne env dt enemy c2)).
Proof.
  intros Hw Hr Hs. rewrite !updateOne_run.
  unfold tk_result, tk_calls, tk_fires, tk_ready, tk_canFire, tk_final, tk_movedWorld,
    tk_moveCall, tk_maneuver, tk_detected, tk_navWorld, tk_steer, tk_steerTargetAng,
    tk_waypoint, tk_navEnemy, tk_navWorld, tk_leftFeel, tk_rightFeel, tk_fwdFeel, tk_armed,
    tk_rising, tk_sight, tk_diff, tk_targetAng, tk_player, tk_enemy, tk_state.
  cbn [world snd]. by rewrite Hw, Hr, Hs.
Qed.

Lemma updateAllAI_app dt l1 : forall l2 c,
  updateAllAI env (l1 ++ l2) dt c = updateAllAI env l2 dt (snd (updateAllAI env l1 dt c)).
Proof.
  induction l1 as [|e l1 IH]; intros l2 c; [reflexivity|].
  cbn [app]. rewrite !updateAllAI_cons. apply IH.
Qed.

Lemma updateAllAI_ok dt enemies : forall c, fst (updateAllAI env enemies dt c) = Ok tt.
Proof.
  induction enemies as [|e enemies IH]; intros c; [reflexivity|].
  rewrite updateAllAI_cons. apply IH.
Qed.

Lemma updateAllAI_foldl dt enemies : forall c,
  snd (updateAllAI env enemies dt c) = foldl (fun c e => snd (updateOne env dt e c)) c enemies.
Proof.
  induction enemies as [|e enemies IH]; intros c; [reflexivity|].
  rewrite updateAllAI_cons. cbn [foldl]. apply IH.
Qed.

Lemma updateAllAI_moves dt enemies : forall c,
  exists new, calls (snd (updateAllAI env enemies dt c)) = calls c ++ new
              /\ moveReceivers new = enemies.
Proof.
  induction enemies as [|e enemies IH]; intros c.
  - exists []. split; [by rewrite app_nil_r | reflexivity].
  - rewrite updateAllAI_cons.
    destruct (IH (snd (updateOne env dt e c))) as (new & Hnew & Hrecv).
    exists (tk_calls env dt e c ++ new). split.
    + rewrite Hnew, updateOne_calls. by rewrite app_assoc.
    + unfold moveReceivers in *. rewrite omap_app.
      fold (moveReceivers (tk_calls env dt e c)).
      by rewrite updateOne_moveReceivers, Hrecv.
Qed.

Lemma updateAllAI_outside dt enemies : ActorsLocal env -> forall c r,
  r ∉ enemies ->
  tanks (world (snd (updateAllAI env enemies dt c))) r = tanks (world c) r
  /\ state (snd (updateAllAI env enemies dt c)) !! r = state c !! r.
Proof.
  intros Hlocal. induction enemies as [|e enemies IH]; intros c r Hr; [by split|].
  apply not_elem_of_cons in Hr as [Hne Hr]. rewrite updateAllAI_cons.
  destruct (IH (snd (updateOne env dt e c)) r Hr) as [-> ->].
  split; [by apply updateOne_tanks_other | by apply updateOne_state_other].
Qed.

(** C9.  [updateAllAI] runs the tick of each entry of [enemies] once, in
    order, each on the controller as the ticks before it left it, and issues
    exactly one [updateMovement] per entry.  Provided the tank methods change
    no tank but their receiver (and [ensureNav] none), it leaves every tank
    outside [enemies] as it was, the player among them, and it leaves every
    entry of the state map outside [enemies] as it was.  An agent listed once
    starts its tick with the state entry and the tank it had before the
    frame, and after the frame its state entry and its tank are the ones that
    its own tick left.  The tick of an agent depends on no state-map entry
    but the agent's own. *)
Theorem updateAllAI_frame enemies dt c (Hlocal : ActorsLocal env) :
  fst (updateAllAI env enemies dt c) = Ok tt
  /\ (exists new, calls (snd (updateAllAI env enemies dt c)) = calls c ++ new
                  /\ moveReceivers new = enemies)
  /\ (forall r, r ∉ enemies ->
        tanks (world (snd (updateAllAI env enemies dt c))) r = tanks (world c) r
        /\ state (snd (updateAllAI env enemies dt c)) !! r = state c !! r)
  /\ (player env ∉ enemies ->
        tanks (world (snd (updateAllAI env enemies dt c))) (player env)
        = tanks (world c) (player env))
  /\ (forall e c2, world c2 = world c -> rng c2 = rng c -> state c2 !! e = state c !! e ->
        state (snd (updateOne env dt e c2)) !! e = state (snd (updateOne env dt e c)) !! e)
  /\ snd (updateAllAI env enemies dt c)
     = foldl (fun c e => snd (updateOne env dt e c)) c enemies
  /\ (NoDup enemies -> forall before e after, enemies = before ++ e :: after ->
        let c1 := snd (updateAllAI env before dt c) in
        let c2 := snd (updateOne env dt e c1) in
        state c1 !! e = state c !! e
        /\ tanks (world c1) e = tanks (world c) e
        /\ state (snd (updateAllAI env enemies dt c)) !! e = Some (tk_final env dt e c1)
        /\ state (snd (updateAllAI env enemies dt c)) !! e = state c2 !! e
        /\ tanks (world (snd (updateAllAI env enemies dt c))) e = tanks (world c2) e).
Proof.
  split; [apply updateAllAI_ok|]. split; [apply updateAllAI_moves|].
  split; [intros r Hr; by apply updateAllAI_outside|].
  split; [intros Hp; by apply updateAllAI_outside|].
  split.
  { intros e c2 Hw Hr Hs. rewrite !updateOne_state. f_equal.
    by apply updateOne_reads_own. }
  split; [apply updateAllAI_foldl|].
  intros Hnd before e after ->. cbn zeta.
  apply NoDup_app in Hnd as (_ & Hbefore & Hnd).
  apply NoDup_cons in Hnd as [Hafter _].
  assert (He : e ∉ before).
  { intros Hin. apply (Hbefore e Hin). apply elem_of_cons. by left. }
  destruct (updateAllAI_outside dt before Hlocal c e He) as [Ht Hs].
  split; [exact Hs|]. split; [exact Ht|].
  rewrite updateAllAI_app, updateAllAI_cons.
  destruct (updateAllAI_outside dt after Hlocal
              (snd (updateOne env dt e (snd (updateAllAI env before dt c)))) e Hafter)
    as [Ht' Hs'].
  split; [rewrite Hs'; apply updateOne_state|]. split; [exact Hs' | exact Ht'].
Qed.

End Batch.

(** ** Spawning *)

Section Spawn.

Context {Body Game : Type} (env : Env Body Game).
Implicit Types (w : World Body Game) (enemies : list ref).

Lemma spawns_length W H : length (spawns W H) = 8%nat.
Proof. reflexivity. Qed.

(** [spawns[i % spawns.length]] is always one of the eight points. *)
Lemma spawnAt_in W H i : In (spawnAt (spawns W H) i) (spawns W H).
Proof.
  unfold spawnAt. apply nth_In. rewrite spawns_length.
  apply Nat.mod_upper_bound. discriminate.
Qed.

Lemma spawnLoop_None colors pts W H n i si enemies w :
  fst (spawnLoop env None colors pts W H (S n) i si enemies w)
  = Throw (TypeError "TankClass is not a constructor")
  /\ snd (spawnLoop env None colors pts W H (S n) i si enemies w) = w.
Proof.
  cbn [spawnLoop]. destruct (canOccupy env) as [occupy|].
  - destruct (retrySpawn occupy pts (length pts) (S si) (spawnAt pts si)) as [s si'].
    split; reflexivity.
  - split; reflexivity.
Qed.



Lemma plainConstructor_local fields :
  constructorLocal (plainConstructor (Body := Body) (Game := Game) fields).
Proof. intros px py c w. cbn. by repeat split. Qed.






End Spawn.

(** ** The patch installers *)

Section Patches.

Context {Body Game FireArgs MoveArgs : Type}.
Implicit Types (tc : TankClassObj Body Game FireArgs MoveArgs)
               (bc : BulletClassObj Body Game)
               (w : World Body Game).

Lemma increaseBulletSpeed_guard tc factor :
  truthy (orig_fire_fastpatch tc) = true -> increaseBulletSpeed (Some tc) factor = Ok tc.
Proof. intros H. unfold increaseBulletSpeed. by rewrite H. Qed.

Lemma enableBouncingBullets_guard bc env maxBounces :
  truthy (orig_update_bouncepatch bc) = true ->
  enableBouncingBullets (Some bc) env maxBounces = Ok bc.
Proof. intros H. unfold enableBouncingBullets. by rewrite H. Qed.

Lemma enableDeadlyWalls_guard tc env deadly w :
  truthy (orig_update_move_deadlypatch tc) = true ->
  enableDeadlyWalls (Some tc) env deadly w
  = (Ok tc, set_maze (tagDeadly deadly (maze w)) w).
Proof. intros H. unfold enableDeadlyWalls, bind, modify. by rewrite H. Qed.

(** The first call sets the guard, provided the class has the method. *)
Lemma increaseBulletSpeed_sets_guard tc factor :
  is_Some (proto_fire tc) ->
  exists tc1, increaseBulletSpeed (Some tc) factor = Ok tc1
              /\ truthy (orig_fire_fastpatch tc1) = true.
Proof.
  intros [f Hf]. unfold increaseBulletSpeed.
  destruct (truthy (orig_fire_fastpatch tc)) eqn:E; [by exists tc|].
  eexists. split; [reflexivity|]. cbn. by rewrite Hf.
Qed.

Lemma enableBouncingBullets_sets_guard bc env maxBounces :
  is_Some (proto_update bc) ->
  exists bc1, enableBouncingBullets (Some bc) env maxBounces = Ok bc1
              /\ truthy (orig_update_bouncepatch bc1) = true.
Proof.
  intros [f Hf]. unfold enableBouncingBullets.
  destruct (truthy (orig_update_bouncepatch bc)) eqn:E; [by exists bc|].
  eexists. split; [reflexivity|]. cbn. by rewrite Hf.
Qed.

Lemma enableDeadlyWalls_sets_guard tc env deadly w :
  is_Some (proto_updateMovement tc) ->
  exists tc1, enableDeadlyWalls (Some tc) env deadly w
              = (Ok tc1, set_maze (tagDeadly deadly (maze w)) w)
              /\ truthy (orig_update_move_deadlypatch tc1) = true.
Proof.
  intros [f Hf]. unfold enableDeadlyWalls, bind, modify.
  destruct (truthy (orig_update_move_deadlypatch tc)) eqn:E; [by exists tc|].
  eexists. split; [reflexivity|]. cbn. by rewrite Hf.
Qed.

(** Neither installer of the Tank class touches the method and the guard of
    the other. *)
Lemma installOne_keeps_fire i tc w :
  truthy (orig_fire_fastpatch tc) = true ->
  exists tc' w', installOne i tc w = (Ok tc', w')
                 /\ proto_fire tc' = proto_fire tc
                 /\ orig_fire_fastpatch tc' = orig_fire_fastpatch tc.
Proof.
  intros H. destruct i as [factor|env deadly]; cbn [installOne].
  - rewrite increaseBulletSpeed_guard by done. by exists tc, w.
  - unfold enableDeadlyWalls, bind, modify.
    destruct (truthy (orig_update_move_deadlypatch tc)); eexists _, _; by split.
Qed.

Lemma installOne_keeps_move i tc w :
  truthy (orig_update_move_deadlypatch tc) = true ->
  exists tc' w', installOne i tc w = (Ok tc', w')
                 /\ proto_updateMovement tc' = proto_updateMovement tc
                 /\ orig_update_move_deadlypatch tc' = orig_update_move_deadlypatch tc.
Proof.
  intros H. destruct i as [factor|env deadly]; cbn [installOne].
  - unfold increaseBulletSpeed.
    destruct (truthy (orig_fire_fastpatch tc)); eexists _, _; by split.
  - rewrite enableDeadlyWalls_guard by done. by eexists _, _.
Qed.

Lemma installAll_keeps_fire l : forall tc w,
  truthy (orig_fire_fastpatch tc) = true ->
  exists tc' w', installAll l tc w = (Ok tc', w') /\ proto_fire tc' = proto_fire tc.
Proof.
  induction l as [|i l IH]; intros tc w H; [by exists tc, w|].
  destruct (installOne_keeps_fire i tc w H) as (tc1 & w1 & Hrun & Hf & Hg).
  destruct (IH tc1 w1) as (tc2 & w2 & Hrun2 & Hf2); [by rewrite Hg|].
  exists tc2, w2. cbn. unfold bind. rewrite Hrun. split; [exact Hrun2 | congruence].
Qed.

Lemma installAll_keeps_move l : forall tc w,
  truthy (orig_update_move_deadlypatch tc) = true ->
  exists tc' w', installAll l tc w = (Ok tc', w')
                 /\ proto_updateMovement tc' = proto_updateMovement tc.
Proof.
  induction l as [|i l IH]; intros tc w H; [by exists tc, w|].
  destruct (installOne_keeps_move i tc w H) as (tc1 & w1 & Hrun & Hf & Hg).
  destruct (IH tc1 w1) as (tc2 & w2 & Hrun2 & Hf2); [by rewrite Hg|].
  exists tc2, w2. cbn. unfold bind. rewrite Hrun. split; [exact Hrun2 | congruence].
Qed.

Lemma bounceAll_keeps l : forall bc,
  truthy (orig_update_bouncepatch bc) = true -> bounceAll l bc = Ok bc.
Proof.
  induction l as [|[env mb] l IH]; intros bc H; [reflexivity|].
  cbn [bounceAll]. rewrite enableBouncingBullets_guard by done. by apply IH.
Qed.

(** The replacement of [fire] multiplies the velocity of the bullet that the
    original returns by [factor]. *)
Lemma fastFire_scales (orig : Method Body Game FireArgs Fired) factor args this w r w' :
  orig args this w = (Ok (FiredBullet r), w') ->
  fst (fastFire (Some orig) factor args this w) = Ok (FiredBullet r)
  /\ bullet_vx (bullets (snd (fastFire (Some orig) factor args this w)) r)
     = bullet_vx (bullets w' r) * factor
  /\ bullet_vy (bullets (snd (fastFire (Some orig) factor args this w)) r)
     = bullet_vy (bullets w' r) * factor.
Proof.
  intros H. unfold fastFire, bind, apply. rewrite H. cbn.
  rewrite fn_lookup_insert. by cbn.
Qed.

(** C10.  Let the Tank class have [fire] and [updateMovement] and the Bullet
    class have [update].  Once an installer has been applied, the method it
    installed is the same after any further calls of the installers on that
    class, whatever their arguments; a further call of the same installer
    leaves the whole class object as it is.  In particular two calls of
    [increaseBulletSpeed] with factor [f] on an unpatched class leave the
    replacement that multiplies the velocity of a fired bullet by [f], once. *)
Theorem installers_idempotent tc bc
    (Hfire : is_Some (proto_fire tc))
    (Hmove : is_Some (proto_updateMovement tc))
    (Hupdate : is_Some (proto_update bc)) :
  (forall factor, exists tc1,
      increaseBulletSpeed (Some tc) factor = Ok tc1
      /\ (forall factor', increaseBulletSpeed (Some tc1) factor' = Ok tc1)
      /\ (forall later w, exists tcN w',
            installAll later tc1 w = (Ok tcN, w') /\ proto_fire tcN = proto_fire tc1))
  /\ (forall env maxBounces, exists bc1,
      enableBouncingBullets (Some bc) env maxBounces = Ok bc1
      /\ (forall env' maxBounces', enableBouncingBullets (Some bc1) env' maxBounces' = Ok bc1)
      /\ (forall later, bounceAll later bc1 = Ok bc1))
  /\ (forall env deadly w, exists tc1,
      fst (enableDeadlyWalls (Some tc) env deadly w) = Ok tc1
      /\ (forall env' deadly' w', fst (enableDeadlyWalls (Some tc1) env' deadly' w') = Ok tc1)
      /\ (forall later w', exists tcN w'',
            installAll later tc1 w' = (Ok tcN, w'')
            /\ proto_updateMovement tcN = proto_updateMovement tc1))
  /\ (orig_fire_fastpatch tc = None ->
      forall f, exists tc1,
        increaseBulletSpeed (Some tc) (Some f) = Ok tc1
        /\ increaseBulletSpeed (Some tc1) (Some f) = Ok tc1
        /\ proto_fire tc1 = Some (fastFire (proto_fire tc) f)
        /\ (forall orig args this w r w',
              proto_fire tc = Some orig ->
              orig args this w = (Ok (FiredBullet r), w') ->
              bullet_vx (bullets (snd (fastFire (proto_fire tc) f args this w)) r)
              = bullet_vx (bullets w' r) * f
              /\ bullet_vy (bullets (snd (fastFire (proto_fire tc) f args this w)) r)
                 = bullet_vy (bullets w' r) * f)).
Proof.
  split; [|split; [|split]].
  - intros factor.
    destruct (increaseBulletSpeed_sets_guard tc factor Hfire) as (tc1 & Hrun & Hg).
    exists tc1. split; [exact Hrun|]. split.
    + intros factor'. by apply increaseBulletSpeed_guard.
    + intros later w. by apply installAll_keeps_fire.
  - intros env maxBounces.
    destruct (enableBouncingBullets_sets_guard bc env maxBounces Hupdate) as (bc1 & Hrun & Hg).
    exists bc1. split; [exact Hrun|]. split.
    + intros env' mb'. by apply enableBouncingBullets_guard.
    + intros later. by apply bounceAll_keeps.
  - intros env deadly w.
    destruct (enableDeadlyWalls_sets_guard tc env deadly w Hmove) as (tc1 & Hrun & Hg).
    exists tc1. split; [by rewrite Hrun|]. split.
    + intros env' deadly' w'. by rewrite enableDeadlyWalls_guard.
    + intros later w'. by apply installAll_keeps_move.
  - intros Hnone f.
    destruct Hfire as [orig Horig].
    eexists. split; [|split; [|split]].
    + unfold increaseBulletSpeed. rewrite Hnone. cbn. reflexivity.
    + apply increaseBulletSpeed_guard. cbn. by rewrite Horig.
    + reflexivity.
    + intros orig' args this w r w' Ho Hrun. rewrite Ho.
      by destruct (fastFire_scales orig' f args this w r w' Hrun) as (_ & ? & ?).
Qed.

End Patches.

(** ** Numbers and frame times *)

Section Numbers.

(** X1.  [clamp(v, a, b)] with [a <= b] lies in [a, b], is [v] itself when
    [v] already does, and is therefore idempotent.  With the bounds the wrong
    way round ([b < a]) it is [a] whatever [v] is. *)
Theorem clamp_range v a b :
  (a <= b -> a <= clamp v a b <= b
             /\ (a <= v <= b -> clamp v a b == v)
             /\ clamp (clamp v a b) a b == clamp v a b)
  /\ (b < a -> clamp v a b = a).
Proof.
  unfold clamp, Math_max, Math_min. split.
  - intros Hab. repeat split.
    + cmp_all; lra.
    + cmp_all; lra.
    + intros [H1 H2]. cmp_all; lra.
    + cmp_all; lra.
  - intros Hba. cmp_all; try reflexivity; exfalso; lra.
Qed.

End Numbers.

Section Speed.

Context {F R : Type}.

Lemma feedFrames_wrapped (frameFn : num -> M F R) multiplier t0 (ts : list num) (f : F) :
  feedFrames (wrapFrameWithSpeed frameFn multiplier) ts (Some t0, f)
  = (fst (feedFrames frameFn (map (fun t => t0 + (t - t0) * default 2 multiplier) ts) f),
     (Some t0, snd (feedFrames frameFn (map (fun t => t0 + (t - t0) * default 2 multiplier) ts) f))).
Proof.
  revert f. induction ts as [|t ts IH]; intros f; [reflexivity|].
  cbn [feedFrames map]. unfold bind at 1 3 5. unfold wrapFrameWithSpeed at 1. cbn [fst snd].
  destruct (frameFn _ f) as [[r|e] f1]; [|reflexivity].
  unfold bind. rewrite IH.
  destruct (feedFrames frameFn _ f1) as [[rs|e] f2]; reflexivity.
Qed.

(** X2.  The closure made by [wrapFrameWithSpeed] keeps the time stamp of its
    first call for good: fed the time stamps [t0 :: ts], it calls [frameFn]
    on [t0] and then on [t0 + (t - t0) * multiplier] for each later [t], with
    the same results and effects as [frameFn] run on those times; so the time
    that [frameFn] sees between any two frames is the real one times
    [multiplier] (2 when absent). *)
Theorem wrapFrameWithSpeed_scales (frameFn : num -> M F R) multiplier t0 (ts : list num)
    (f : F) :
  let scale := fun t => t0 + (t - t0) * default 2 multiplier in
  feedFrames (wrapFrameWithSpeed frameFn multiplier) (t0 :: ts) (None, f)
  = (fst (feedFrames frameFn (map scale (t0 :: ts)) f),
     (Some t0, snd (feedFrames frameFn (map scale (t0 :: ts)) f)))
  /\ scale t0 == t0
  /\ (forall t1 t2, scale t2 - scale t1 == default 2 multiplier * (t2 - t1)).
Proof.
  cbn zeta. split; [|split; [ring | intros; ring]].
  cbn [feedFrames map]. unfold bind at 1 3 5. unfold wrapFrameWithSpeed at 1. cbn [fst snd].
  destruct (frameFn _ f) as [[r|e] f1]; [|reflexivity].
  unfold bind. rewrite feedFrames_wrapped.
  destruct (feedFrames frameFn _ f1) as [[rs|e] f2]; reflexivity.
Qed.

End Speed.

(** ** More on the patches *)

Section MorePatches.

Context {Body Game FireArgs MoveArgs : Type}.
Implicit Types (tc : TankClassObj Body Game FireArgs MoveArgs)
               (bc : BulletClassObj Body Game)
               (w : World Body Game).

Lemma set_deadly_twice m : set_deadly (set_deadly m) = set_deadly m.
Proof. reflexivity. Qed.

Lemma tagDeadly_indices_lookup (indices : list nat) : forall (walls : list Wall) (i : nat),
  tagDeadly (DeadlyIndices indices) walls !! i
  = (fun m => if bool_decide (i ∈ indices) then set_deadly m else m) <$> walls !! i.
Proof.
  cbn [tagDeadly].
  induction indices as [|j indices IH]; intros walls i.
  - cbn. by destruct (walls !! i).
  - cbn [foldl]. rewrite IH.
    destruct (decide (i = j)) as [->|Hne].
    + rewrite list_lookup_alter_eq. destruct (walls !! j) as [m|]; [|reflexivity]. cbn.
      rewrite (bool_decide_eq_true_2 (j ∈ j :: indices)) by (apply elem_of_cons; by left).
      by destruct (bool_decide (j ∈ indices)).
    + rewrite list_lookup_alter_ne by done.
      destruct (walls !! i) as [m|]; [|reflexivity]. cbn. f_equal.
      destruct (bool_decide (i ∈ indices)) eqn:E.
      * apply bool_decide_eq_true in E.
        rewrite bool_decide_eq_true_2; [done | apply elem_of_cons; by right].
      * apply bool_decide_eq_false in E.
        rewrite bool_decide_eq_false_2; [done|].
        intros Hin. apply elem_of_cons in Hin as [?|?]; done.
Qed.

(** X4.  Tagging keeps the number, the order and the rectangle of the walls
    and never clears a [deadly] flag.  With a list of indices, wall [i] is
    deadly afterwards exactly when it was before or [i] is in the list;
    indices beyond the maze are ignored.  With a predicate, wall [i] is
    deadly afterwards exactly when it was before or the predicate holds of
    it.  Any other [deadly] argument tags nothing. *)
Theorem tagDeadly_marks (deadly : Deadly) (walls : list Wall) :
  length (tagDeadly deadly walls) = length walls
  /\ (forall i m, walls !! i = Some m ->
        exists m', tagDeadly deadly walls !! i = Some m'
          /\ wall_x m' = wall_x m /\ wall_y m' = wall_y m
          /\ wall_w m' = wall_w m /\ wall_h m' = wall_h m
          /\ wall_deadly m' =
               wall_deadly m ||
               match deadly with
               | DeadlyIndices indices => bool_decide (i ∈ indices)
               | DeadlyPredicate f => f m i
               | DeadlyOther => false
               end).
Proof.
  split.
  - destruct deadly as [indices|f|]; cbn [tagDeadly]; [|apply length_imap|reflexivity].
    revert walls. induction indices as [|j indices IH]; intros walls; [reflexivity|].
    cbn [foldl]. rewrite IH. apply length_alter.
  - intros i m Hm. destruct deadly as [indices|f|].
    + rewrite tagDeadly_indices_lookup, Hm. cbn.
      destruct (bool_decide (i ∈ indices)); eexists; (split; [reflexivity|]); cbn;
        repeat split; by rewrite ?orb_true_r, ?orb_false_r.
    + cbn [tagDeadly]. rewrite list_lookup_imap, Hm. cbn.
      destruct (f m i); eexists; (split; [reflexivity|]); cbn;
        repeat split; by rewrite ?orb_true_r, ?orb_false_r.
    + exists m. cbn. repeat split; [done | by rewrite orb_false_r].
Qed.

(** X5.  On a class, [enableDeadlyWalls] tags the walls on every call, also
    when the class is patched already and the guard returns early; it
    changes nothing else in the world, and it never throws. *)
Theorem enableDeadlyWalls_always_tags tc (env : DeadlyEnv Body Game) deadly w :
  exists tc',
    enableDeadlyWalls (Some tc) env deadly w
    = (Ok tc', set_maze (tagDeadly deadly (maze w)) w)
    /\ proto_fire tc' = proto_fire tc
    /\ orig_fire_fastpatch tc' = orig_fire_fastpatch tc.
Proof.
  unfold enableDeadlyWalls, bind, modify.
  destruct (truthy (orig_update_move_deadlypatch tc)); eexists; by split.
Qed.

(** X6.  The guards test the stored original, so they only work for a class
    that has the method.  On a class without [fire] (and not patched)
    [increaseBulletSpeed] does not throw, stores nothing that is truthy, and
    a second call wraps the first replacement again; the method it leaves
    throws a [TypeError] when it is called. *)
Theorem increaseBulletSpeed_without_fire tc f g
    (Hnone : proto_fire tc = None) (Hfresh : orig_fire_fastpatch tc = None) :
  exists tc1 tc2,
    increaseBulletSpeed (Some tc) (Some f) = Ok tc1
    /\ truthy (orig_fire_fastpatch tc1) = false
    /\ increaseBulletSpeed (Some tc1) (Some g) = Ok tc2
    /\ proto_fire tc1 = Some (fastFire None f)
    /\ proto_fire tc2 = Some (fastFire (Some (fastFire None f)) g)
    /\ forall (args : FireArgs) this w,
         fastFire (Some (fastFire None f)) g args this w
         = (Throw (TypeError "cannot read properties of undefined (reading 'apply')"), w).
Proof.
  eexists _, _. unfold increaseBulletSpeed. rewrite Hfresh, Hnone. cbn.
  repeat split.
Qed.

Lemma killOnContact_run (env : DeadlyEnv Body Game) this (walls : list Wall) w :
  killOnContact env this walls w
  = (Ok tt, if existsb (lethal env (tanks w this)) walls then killed env this w else w).
Proof.
  induction walls as [|m walls IH]; [reflexivity|].
  cbn [killOnContact existsb]. unfold lethal at 1.
  destruct (wall_deadly m); cbn [negb andb orb]; [|exact IH].
  destruct (d_wallPx env m) as [[[x y] wd] h]. unfold bind, get.
  destruct (d_circleRectCollision env _ _ _ x y wd h); cbn [orb].
  - unfold killed, callback. destruct (d_onTankKilled env); reflexivity.
  - exact IH.
Qed.

(** X7.  The replacement of [updateMovement] first runs the original.  If
    that throws, so does the replacement, and [onTankKilled] is not called.
    Otherwise [onTankKilled(this)] is called, once, exactly when some deadly
    wall of the maze overlaps the tank where the original left it; with no
    deadly wall the replacement does what the original does. *)
Theorem deadlyMovement_kills (orig : Method Body Game MoveArgs unit)
    (env : DeadlyEnv Body Game) args this w :
  (forall e w1, orig args this w = (Throw e, w1) ->
     deadlyMovement (Some orig) env args this w = (Throw e, w1))
  /\ (forall w1, orig args this w = (Ok tt, w1) ->
        deadlyMovement (Some orig) env args this w
        = (Ok tt, if existsb (lethal env (tanks w1 this)) (maze w1)
                  then killed env this w1 else w1)
        /\ (Forall (fun m => wall_deadly m = false) (maze w1) ->
            deadlyMovement (Some orig) env args this w = orig args this w)).
Proof.
  split.
  - intros e w1 H. unfold deadlyMovement, bind, apply. by rewrite H.
  - intros w1 H.
    assert (Hrun : deadlyMovement (Some orig) env args this w
                   = (Ok tt, if existsb (lethal env (tanks w1 this)) (maze w1)
                             then killed env this w1 else w1)).
    { unfold deadlyMovement, bind, apply, get. rewrite H. apply killOnContact_run. }
    split; [exact Hrun|].
    intros Hnone. rewrite Hrun, H.
    replace (existsb (lethal env (tanks w1 this)) (maze w1)) with false; [reflexivity|].
    symmetry. apply not_true_iff_false. intros Hex. apply existsb_exists in Hex as (m & Hin & Hl).
    rewrite Forall_forall in Hnone. apply list_elem_of_In in Hin.
    unfold lethal in Hl. rewrite (Hnone m Hin) in Hl. discriminate.
Qed.

(** X8.  The replacement of [fire] answers what the original answers.  A
    throw of the original, or an answer that is not a bullet, passes through
    with the world as the original left it.  For a bullet, the velocity is
    multiplied by [factor] and nothing else changes: not the bullet's other
    fields, nor any other bullet, tank or wall.  When the class had no
    [fire], calling the replacement throws a [TypeError]. *)
Theorem fastFire_passes_through (orig : Method Body Game FireArgs Fired) factor args this w :
  fastFire (Body := Body) (Game := Game) (FireArgs := FireArgs) None factor args this w
  = (Throw (TypeError "cannot read properties of undefined (reading 'apply')"), w)
  /\ (forall e w1, orig args this w = (Throw e, w1) ->
        fastFire (Some orig) factor args this w = (Throw e, w1))
  /\ (forall w1, orig args this w = (Ok NoBullet, w1) ->
        fastFire (Some orig) factor args this w = (Ok NoBullet, w1))
  /\ (forall w1, orig args this w = (Ok NotABullet, w1) ->
        fastFire (Some orig) factor args this w = (Ok NotABullet, w1))
  /\ (forall r w1, orig args this w = (Ok (FiredBullet r), w1) ->
        let w2 := snd (fastFire (Some orig) factor args this w) in
        fst (fastFire (Some orig) factor args this w) = Ok (FiredBullet r)
        /\ bullets w2 r = set_velocity (bullet_vx (bullets w1 r) * factor)
                                       (bullet_vy (bullets w1 r) * factor) (bullets w1 r)
        /\ (forall r', r' <> r -> bullets w2 r' = bullets w1 r')
        /\ tanks w2 = tanks w1 /\ maze w2 = maze w1 /\ game w2 = game w1
        /\ allocated w2 = allocated w1).
Proof.
  split; [reflexivity|].
  unfold fastFire, bind, apply.
  split; [intros e w1 H; by rewrite H|].
  split; [intros w1 H; by rewrite H|].
  split; [intros w1 H; by rewrite H|].
  intros r w1 H. rewrite H. cbn.
  split; [reflexivity|]. split; [by rewrite fn_lookup_insert|].
  split; [intros r' Hne; by rewrite fn_lookup_insert_ne|]. by repeat split.
Qed.

End MorePatches.

(** ** The patched bullet update *)

Section Bounce.

Context {Body Game : Type}.
Implicit Types (w : World Body Game) (env : BounceEnv Body Game).

Lemma callback_bullet (g : option (World Body Game -> World Body Game)) this w :
  (forall f w', g = Some f -> bullets (f w') this = bullets w' this) ->
  fst (callback g w) = Ok tt /\ bullets (snd (callback g w)) this = bullets w this.
Proof.
  intros H. destruct g as [f|]; cbn; [|done]. split; [done|]. by apply H.
Qed.

Lemma bounceOnWalls_run env this p0 p1 (walls : list Wall) w :
  quietCallbacks env this ->
  exists w1,
    bounceOnWalls env this p0 p1 walls w = (Ok (existsb (hitsWall env p0 p1) walls), w1)
    /\ (existsb (hitsWall env p0 p1) walls = false -> w1 = w)
    /\ (existsb (hitsWall env p0 p1) walls = true ->
        exists hitVertical : bool,
          bullets w1 this
          = set_bounces (default 0 (bullet_bounces (bullets w this)) + 1)
              (if hitVertical
               then set_velocity (- bullet_vx (bullets w this)) (bullet_vy (bullets w this))
                                 (bullets w this)
               else set_velocity (bullet_vx (bullets w this)) (- bullet_vy (bullets w this))
                                 (bullets w this))).
Proof.
  intros [Hexp Hsfx].
  induction walls as [|m walls IH].
  - exists w. cbn. split; [reflexivity|]. split; [done | discriminate].
  - cbn [bounceOnWalls existsb]. unfold hitsWall at 1 3 5.
    destruct (b_wallPx env m) as [[[x y] wd] h].
    destruct (b_segRectIntersects env p0 p1 x y wd h); cbn [orb]; [|exact IH].
    unfold bind at 1. unfold this_bullet at 1. unfold bind at 1, get, ret at 1.
    set (b := bullets w this).
    set (hv := Math_abs (clamp (bullet_x b) x (x + wd) - bullet_x b)
               >? Math_abs (clamp (bullet_y b) y (y + h) - bullet_y b)).
    unfold bind at 1. unfold set_this_bullet at 1, modify at 1.
    unfold bind at 1. unfold this_bullet at 1. unfold bind at 1, get, ret at 1.
    cbn [bullets set_bullets]. rewrite !fn_lookup_insert. fold b.
    set (w1 := set_bullets _ w).
    set (b1 := if hv then _ else _).
    unfold bind at 1.
    set (g1 := option_map _ (b_spawnExplosion env)).
    destruct (callback_bullet g1 this w1) as [Hok1 Hb1].
    { intros f w' Hg. subst g1. destruct (b_spawnExplosion env) as [f0|] eqn:E; [|discriminate].
      inversion Hg; subst. by eapply Hexp. }
    destruct (callback g1 w1) as [r1 w2]. cbn in Hok1, Hb1. subst r1.
    unfold bind at 1.
    set (g2 := option_map _ (b_playSFX env)).
    destruct (callback_bullet g2 this w2) as [Hok2 Hb2].
    { intros f w' Hg. subst g2. destruct (b_playSFX env) as [f0|] eqn:E; [|discriminate].
      inversion Hg; subst. by eapply Hsfx. }
    destruct (callback g2 w2) as [r2 w3]. cbn in Hok2, Hb2. subst r2.
    unfold bind, set_this_bullet, modify, ret.
    eexists. split; [reflexivity|]. split; [discriminate|].
    intros _. exists hv. cbn [bullets set_bullets]. rewrite fn_lookup_insert.
    rewrite Hb2, Hb1. subst w1. cbn [bullets set_bullets]. rewrite fn_lookup_insert.
    subst b1. by destruct hv.
Qed.

Ltac bsimp :=
  cbn [bullet_life bullet_bounces bullet_x bullet_y bullet_vx bullet_vy bullet_alive
       set_life set_position set_bounces set_velocity set_alive
       bullets set_bullets fst snd negb orb andb from_option id].

Ltac bfields :=
  unfold set_life, set_position, set_bounces, set_velocity, set_alive; bsimp.

Lemma bouncingUpdate_alive env maxBounces dt this w :
  quietCallbacks env this ->
  bullet_alive (bullets w this) = true ->
  let b := bullets w this in
  let nx := bullet_x b + bullet_vx b * dt in
  let ny := bullet_y b + bullet_vy b * dt in
  let hit := existsb (hitsWall env (bullet_x b, bullet_y b) (nx, ny)) (maze w) in
  let outX := (nx <? 0) || (nx >? fst (b_canvas env)) in
  let outY := (ny <? 0) || (ny >? snd (b_canvas env)) in
  let bounced := hit || outX || outY in
  let n := if hit then default 0 (bullet_bounces b) + 1 else default 0 (bullet_bounces b) in
  exists w' vx' vy',
    bouncingUpdate env maxBounces dt this w = (Ok tt, w')
    /\ bullets w' this
       = mkBullet (if bounced then bullet_x b + vx' * dt else nx)
                  (if bounced then bullet_y b + vy' * dt else ny)
                  vx' vy' (bullet_life b - dt)
                  (negb ((bullet_life b - dt <=? 0) || (maxBounces <=? n)))
                  (Some n)
    /\ (hit = true -> (vx' = - bullet_vx b /\ vy' = bullet_vy b)
                      \/ (vx' = bullet_vx b /\ vy' = - bullet_vy b))
    /\ (hit = false -> vx' = (if outX then - bullet_vx b else bullet_vx b)
                       /\ vy' = (if outY then - bullet_vy b else bullet_vy b)).
Proof.
  intros Hq Halive. cbn zeta.
  unfold bouncingUpdate.
  unfold bind at 1. unfold this_bullet at 1. unfold bind at 1, get, ret at 1.
  rewrite Halive. cbn [negb].
  set (b := bullets w this) in *.
  set (nx := bullet_x b + bullet_vx b * dt).
  set (ny := bullet_y b + bullet_vy b * dt).
  set (outX := (nx <? 0) || (nx >? fst (b_canvas env))).
  set (outY := (ny <? 0) || (ny >? snd (b_canvas env))).
  unfold bind at 1. unfold set_this_bullet at 1, modify at 1.
  set (w0 := set_bullets _ w).
  unfold bind at 1.
  change (maze w0) with (maze w).
  unfold bind at 1.
  destruct (bounceOnWalls_run env this (bullet_x b, bullet_y b) (nx, ny) (maze w) w0 Hq)
    as (w1 & Hrun & Hmiss & Hhit).
  rewrite Hrun.
  assert (Hb0 : bullets w0 this = set_bounces (default 0 (bullet_bounces b)) b).
  { subst w0. cbn. by rewrite fn_lookup_insert. }
  destruct Hq as [Hexp Hsfx].
  destruct (existsb (hitsWall env (bullet_x b, bullet_y b) (nx, ny)) (maze w)) eqn:Ehit.
  - destruct (Hhit eq_refl) as (hv & Hb1). clear Hhit Hmiss.
    rewrite Hb0 in Hb1. cbn in Hb1.
    cbn [negb].
    unfold this_bullet, set_this_bullet, modify, get, ret, bind.
    bsimp. rewrite ?fn_lookup_insert, ?Hb1. bsimp.
    destruct hv; bsimp.
    + destruct ((bullet_life b - dt <=? 0) || (maxBounces <=? default 0 (bullet_bounces b) + 1));
        eexists _, (- bullet_vx b), (bullet_vy b);
        bsimp; (split; [reflexivity|]);
        bsimp; rewrite ?fn_lookup_insert; bfields; rewrite ?Halive;
        (split; [reflexivity|]); (split; [auto | discriminate]).
    + destruct ((bullet_life b - dt <=? 0) || (maxBounces <=? default 0 (bullet_bounces b) + 1));
        eexists _, (bullet_vx b), (- bullet_vy b);
        bsimp; (split; [reflexivity|]);
        bsimp; rewrite ?fn_lookup_insert; bfields; rewrite ?Halive;
        (split; [reflexivity|]); (split; [auto | discriminate]).
  - rewrite (Hmiss eq_refl). clear Hhit Hmiss Hrun w1.
    cbn [negb orb]. clearbody outX outY.
    assert (Hsfx' : forall f, b_playSFX env = Some f ->
              forall w', bullets (f "wall"%string w') this = bullets w' this)
      by (intros f E w'; by eapply Hsfx).
    destruct (b_playSFX env) as [f|] eqn:E; [specialize (Hsfx' f eq_refl)|]; clear Hsfx;
      cbn [option_map callback];
      unfold this_bullet, set_this_bullet, modify, get, ret, bind;
      destruct outX, outY; bsimp;
      rewrite ?Hsfx'; bsimp; rewrite ?fn_lookup_insert, ?Hb0; bsimp;
      destruct ((bullet_life b - dt <=? 0) || (maxBounces <=? default 0 (bullet_bounces b)));
      eexists _, _, _;
      bsimp; (split; [reflexivity|]);
      bsimp; rewrite ?fn_lookup_insert, ?Hsfx'; bsimp; rewrite ?fn_lookup_insert, ?Hb0;
      bfields; rewrite ?Halive;
      (split; [reflexivity|]); (split; [discriminate | auto]).
Qed.
(** X9.  The patched [update] leaves a bullet that is not alive, and the
    whole world, as they are, and calls no effect. *)
Theorem bouncingUpdate_dead env maxBounces dt this w
    (Hdead : bullet_alive (bullets w this) = false) :
  bouncingUpdate env maxBounces dt this w = (Ok tt, w).
Proof.
  unfold bouncingUpdate, bind, this_bullet, get, ret. cbn. by rewrite Hdead.
Qed.

(** X10.  For a bullet that is alive (the effect callbacks leaving it alone),
    the patched [update] takes [dt] off its life, keeps each velocity
    component up to its sign, and moves the bullet from where it was by the
    velocity it ends with, times [dt]: after a reflection the step is taken
    along the reflected direction. *)
Theorem bouncingUpdate_advances env maxBounces dt this w
    (Hquiet : quietCallbacks env this)
    (Halive : bullet_alive (bullets w this) = true) :
  exists w',
    bouncingUpdate env maxBounces dt this w = (Ok tt, w')
    /\ let b := bullets w this in
       let b' := bullets w' this in
       bullet_life b' = bullet_life b - dt
       /\ (bullet_vx b' = bullet_vx b \/ bullet_vx b' = - bullet_vx b)
       /\ (bullet_vy b' = bullet_vy b \/ bullet_vy b' = - bullet_vy b)
       /\ bullet_x b' = bullet_x b + bullet_vx b' * dt
       /\ bullet_y b' = bullet_y b + bullet_vy b' * dt.
Proof.
  destruct (bouncingUpdate_alive env maxBounces dt this w Hquiet Halive)
    as (w' & vx' & vy' & Hrun & Hb & Hhit & Hmiss).
  exists w'. split; [exact Hrun|]. cbn zeta. rewrite Hb. cbn.
  destruct (existsb _ (maze w)).
  - cbn. destruct (Hhit eq_refl) as [[-> ->]|[-> ->]]; auto 10.
  - destruct (Hmiss eq_refl) as [-> ->]. cbn.
    destruct ((_ <? 0) || (_ >? fst (b_canvas env))),
             ((_ <? 0) || (_ >? snd (b_canvas env))); cbn; auto 10.
Qed.

(** X11.  For a bullet that is alive, the patched [update] reflects on the
    first wall that the step crosses, flipping exactly one velocity
    component and counting one bounce.  When the step crosses no wall, the
    bounce counter stays (an absent counter becomes 0) and a component is
    flipped exactly when the step leaves the canvas along it; inside the
    canvas the bullet flies straight on.  Afterwards the bullet is alive
    exactly when it has life left and fewer than [maxBounces] bounces. *)
Theorem bouncingUpdate_reflects env maxBounces dt this w
    (Hquiet : quietCallbacks env this)
    (Halive : bullet_alive (bullets w this) = true) :
  let b := bullets w this in
  let b' := bullets (snd (bouncingUpdate env maxBounces dt this w)) this in
  let nx := bullet_x b + bullet_vx b * dt in
  let ny := bullet_y b + bullet_vy b * dt in
  let n := default 0 (bullet_bounces b) in
  (existsb (hitsWall env (bullet_x b, bullet_y b) (nx, ny)) (maze w) = true ->
     bullet_bounces b' = Some (n + 1)
     /\ ((bullet_vx b' = - bullet_vx b /\ bullet_vy b' = bullet_vy b)
         \/ (bullet_vx b' = bullet_vx b /\ bullet_vy b' = - bullet_vy b)))
  /\ (existsb (hitsWall env (bullet_x b, bullet_y b) (nx, ny)) (maze w) = false ->
       bullet_bounces b' = Some n
       /\ bullet_vx b' = (if (nx <? 0) || (nx >? fst (b_canvas env))
                          then - bullet_vx b else bullet_vx b)
       /\ bullet_vy b' = (if (ny <? 0) || (ny >? snd (b_canvas env))
                          then - bullet_vy b else bullet_vy b)
       /\ (0 <= nx <= fst (b_canvas env) -> 0 <= ny <= snd (b_canvas env) ->
           bullet_x b' = nx /\ bullet_y b' = ny
           /\ bullet_vx b' = bullet_vx b /\ bullet_vy b' = bullet_vy b))
  /\ (bullet_alive b' = true <->
       0 < bullet_life b - dt
       /\ exists n', bullet_bounces b' = Some n' /\ n' < maxBounces).
Proof.
  destruct (bouncingUpdate_alive env maxBounces dt this w Hquiet Halive)
    as (w' & vx' & vy' & Hrun & Hb & Hhit & Hmiss).
  cbn zeta. rewrite Hrun. cbn [snd]. rewrite Hb. cbn.
  split; [|split].
  - intros E. rewrite E. split; [reflexivity|]. by apply Hhit.
  - intros E. rewrite E. destruct (Hmiss E) as [Hx Hy].
    split; [reflexivity|]. split; [exact Hx|]. split; [exact Hy|].
    intros [Hx0 HxW] [Hy0 HyH]. cbn [orb] in *.
    assert (Ex : (bullet_x (bullets w this) + bullet_vx (bullets w this) * dt <? 0)
                 || (bullet_x (bullets w this) + bullet_vx (bullets w this) * dt
                     >? fst (b_canvas env)) = false).
    { apply orb_false_iff. split; [by apply ltb_ge | by apply gtb_le]. }
    assert (Ey : (bullet_y (bullets w this) + bullet_vy (bullets w this) * dt <? 0)
                 || (bullet_y (bullets w this) + bullet_vy (bullets w this) * dt
                     >? snd (b_canvas env)) = false).
    { apply orb_false_iff. split; [by apply ltb_ge | by apply gtb_le]. }
    rewrite Ex, Ey in *. cbn. by rewrite Hx, Hy.
  - rewrite negb_true_iff, orb_false_iff, leb_gt, leb_gt. split.
    + intros [H1 H2]. split; [exact H1|]. eexists. split; [reflexivity | exact H2].
    + intros [H1 (n' & Hn & H2)]. inversion Hn; subst. by split.
Qed.

End Bounce.

(** ** More on spawning *)

Section MoreSpawn.

Context {Body Game : Type} (env : Env Body Game).
Implicit Types (w : World Body Game) (enemies : list ref).

(** X12.  The retry loop of function.js:186-188 keeps the point it is given
    when that point is free.  Otherwise it walks the table from index [si]
    and stops at the first free point, after at most [remaining] steps; when
    all of them are occupied it answers the last one it tried, which is
    occupied. *)
Theorem retrySpawn_first_free occupy pts remaining si s :
  exists k : nat,
    (k <= remaining)%nat
    /\ snd (retrySpawn occupy pts remaining si s) = (si + k)%nat
    /\ fst (retrySpawn occupy pts remaining si s)
       = match k with O => s | S k' => spawnAt pts (si + k') end
    /\ ((0 < k)%nat -> occupy (fst s) (snd s) 20 = false)
    /\ (forall j, (j + 1 < k)%nat ->
          occupy (fst (spawnAt pts (si + j))) (snd (spawnAt pts (si + j))) 20 = false)
    /\ ((k < remaining)%nat ->
          occupy (fst (fst (retrySpawn occupy pts remaining si s)))
                 (snd (fst (retrySpawn occupy pts remaining si s))) 20 = true).
Proof.
  revert si s. induction remaining as [|n IH]; intros si s.
  - exists O. cbn. destruct (occupy s.1 s.2 20); cbn;
      repeat split; try lia; rewrite ?Nat.add_0_r; auto; intros; lia.
  - cbn [retrySpawn]. destruct (occupy s.1 s.2 20) eqn:E; cbn [negb].
    + exists O. cbn. repeat split; try lia; rewrite ?Nat.add_0_r; auto; intros; lia.
    + destruct (IH (S si) (spawnAt pts si)) as (k & Hk & Hsi & Hs & Hocc & Hbefore & Hfree).
      exists (S k). split; [lia|]. split; [rewrite Hsi; lia|]. split.
      { rewrite Hs. destruct k as [|k']; [by rewrite Nat.add_0_r|].
        f_equal. lia. }
      split; [auto|]. split.
      * intros j Hj. destruct j as [|j].
        -- rewrite Nat.add_0_r. apply Hocc. lia.
        -- replace (si + S j)%nat with (S si + j)%nat by lia. apply Hbefore. lia.
      * intros Hlt. apply Hfree. lia.
Qed.

Lemma spawnLoop_plain fields colors pts W H n :
  forall i si enemies w,
  exists added w',
    spawnLoop env (Some (plainConstructor fields)) colors pts W H n i si enemies w
    = (Ok (enemies ++ added), w')
    /\ (forall r, r ∈ added -> r ∉ allocated w)
    /\ (forall r, r ∉ added -> tanks w' r = tanks w r).
Proof.
  induction n as [|n IH]; intros i si enemies w.
  - exists [], w. cbn. rewrite app_nil_r.
    split; [reflexivity|]. split; [|done]. intros r Hr. by apply elem_of_nil in Hr.
  - cbn [spawnLoop].
    destruct (match canOccupy env with
              | Some occupy => retrySpawn occupy pts (length pts) (S si) (spawnAt pts si)
              | None => (spawnAt pts si, S si)
              end) as [s si'] eqn:Hs.
    unfold bind, new_Tank, allocate, bind, modify. cbn.
    set (r := fresh (allocated w)).
    match goal with |- context [spawnLoop _ _ _ _ _ _ _ _ _ _ ?w1] =>
      destruct (IH (S i) si' (enemies ++ [r]) w1) as (added & w' & Hrun & Hfresh & Htanks)
    end.
    cbn in Hfresh, Htanks.
    exists (r :: added), w'. rewrite Hrun, <- app_assoc. cbn.
    assert (Hr : r ∉ allocated w) by apply is_fresh.
    split; [reflexivity|]. split.
    + intros r' Hin. apply elem_of_cons in Hin as [->|Hin]; [exact Hr|].
      apply Hfresh in Hin. intros Hw. apply Hin, elem_of_union. by right.
    + intros r' Hin. apply not_elem_of_cons in Hin as [Hne Hin].
      rewrite (Htanks r' Hin). rewrite !fn_lookup_insert_ne by done. reflexivity.
Qed.

Lemma spawnLoop_places fields colors pts W H n :
  allSpawnsFree env pts ->
  forall i si enemies w added w',
    spawnLoop env (Some (plainConstructor fields)) colors pts W H n i si enemies w
    = (Ok (enemies ++ added), w') ->
    forall k r, added !! k = Some r ->
      tanks w' r
      = aimAtCentre env W H
          (fields (fst (spawnAt pts (si + k))) (snd (spawnAt pts (si + k)))
                  (colors !! ((i + k) mod length colors)%nat)).
Proof.
  intros Hfree. induction n as [|n IH]; intros i si enemies w added w' Hrun k r Hk.
  - cbn in Hrun. inversion Hrun as [[Heq Hw]].
    rewrite <- (app_nil_r enemies) in Heq at 1. apply app_inv_head in Heq. subst added.
    by rewrite lookup_nil in Hk.
  - cbn [spawnLoop] in Hrun.
    assert (Hpick : match canOccupy env with
                    | Some occupy => retrySpawn occupy pts (length pts) (S si) (spawnAt pts si)
                    | None => (spawnAt pts si, S si)
                    end = (spawnAt pts si, S si)).
    { unfold allSpawnsFree in Hfree. destruct (canOccupy env) as [occupy|]; [|done].
      destruct (length pts); cbn; by rewrite Hfree. }
    rewrite Hpick in Hrun.
    unfold bind, new_Tank, allocate, bind, modify in Hrun. cbn in Hrun.
    set (r0 := fresh (allocated w)) in *.
    match type of Hrun with context [spawnLoop _ _ _ _ _ _ _ _ _ _ ?ww] =>
      set (w1 := ww) in *;
      destruct (spawnLoop_plain fields colors pts W H n (S i) (S si) (enemies ++ [r0]) w1)
        as (rest & w2 & Hrest & Hfresh & Htanks)
    end.
    rewrite Hrest in Hrun. inversion Hrun as [[Heq Hw]]. subst w2.
    rewrite <- app_assoc in Heq. apply app_inv_head in Heq. subst added.
    destruct k as [|k]; cbn in Hk.
    + inversion Hk; subst r. rewrite !Nat.add_0_r.
      rewrite Htanks.
      * subst w1. cbn. by rewrite !fn_lookup_insert.
      * intros Hin. apply Hfresh in Hin. apply Hin. subst w1. cbn.
        apply elem_of_union. left. by apply elem_of_singleton.
    + replace (si + S k)%nat with (S si + k)%nat by lia.
      replace (i + S k)%nat with (S i + k)%nat by lia.
      eapply IH; [exact Hrest | exact Hk].
Qed.

(** X13.  When every spawn point is free (or there is no [canOccupy]), enemy
    number [k] is built at spawn point [k mod 8] with colour
    [colors[k mod colors.length]] (no colour when the list is empty), then
    given turn speed 1.8 and turned towards the centre of the canvas. *)
Theorem spawnMoreEnemies_places count construct color w
    (Hfree : allSpawnsFree env (spawns (fst (canvas env)) (snd (canvas env)))) :
  let W := fst (canvas env) in
  let H := snd (canvas env) in
  exists enemies w',
    spawnMoreEnemies env count (Some (plainConstructor construct)) color w
    = (Ok (enemies, updateAllAI env enemies), w')
    /\ forall k r, enemies !! k = Some r ->
         let p := spawnAt (spawns W H) k in
         let t0 := construct (fst p) (snd p)
                             (colorsOf color !! (k mod length (colorsOf color))%nat) in
         In p (spawns W H)
         /\ tanks w' r = aimAtCentre env W H t0
         /\ tank_turnSpeed (tanks w' r) = 1.8
         /\ tank_angle (tanks w' r) = angleTo env (tank_x t0) (tank_y t0) (W * 0.5) (H * 0.5)
         /\ tank_x (tanks w' r) = tank_x t0 /\ tank_y (tanks w' r) = tank_y t0
         /\ tank_color (tanks w' r) = tank_color t0.
Proof.
  cbn zeta. unfold spawnMoreEnemies. fold (colorsOf color).
  destruct (canvas env) as [W H] eqn:Ec. cbn [fst snd] in *.
  destruct (spawnLoop_plain construct (colorsOf color) (spawns W H) W H
              (iterations count) 0 0 [] w)
    as (added & w' & Hrun & _).
  exists added, w'. unfold bind. rewrite Hrun. split; [reflexivity|].
  intros k r Hk.
  pose proof (spawnLoop_places construct (colorsOf color) (spawns W H) W H (iterations count)
                Hfree 0 0 [] w added w' Hrun k r Hk) as Ht.
  cbn in Ht. split; [apply spawnAt_in|]. rewrite Ht. by repeat split.
Qed.

(** What was there when the loop was entered is there when it is left,
    whether it is left by [return] or by an exception. *)
Lemma spawnLoop_keeps construct colors pts W H n :
  constructorLocal construct ->
  forall i si enemies w,
    let w' := snd (spawnLoop env (Some construct) colors pts W H n i si enemies w) in
    allocated w ⊆ allocated w'
    /\ (forall r, r ∈ allocated w -> tanks w' r = tanks w r)
    /\ bullets w' = bullets w
    /\ maze w' = maze w.
Proof.
  intros Hlocal. induction n as [|n IH]; intros i si enemies w; [done|].
  cbn zeta. cbn [spawnLoop].
  destruct (match canOccupy env with
            | Some occupy => retrySpawn occupy pts (length pts) (S si) (spawnAt pts si)
            | None => (spawnAt pts si, S si)
            end) as [s si'].
  destruct (Hlocal s.1 s.2 (colors !! (i mod length colors)%nat) w) as (Ha & Ht & Hb & Hm).
  unfold bind, new_Tank, bind, allocate, modify.
  destruct (construct s.1 s.2 (colors !! (i mod length colors)%nat) w) as [[t|e] w0];
    cbn [snd] in Ha, Ht, Hb, Hm; cbn;
    [|split; [exact Ha | split; [exact Ht | split; [exact Hb | exact Hm]]]].
  set (r := fresh (allocated w0)).
  assert (Hr : r ∉ allocated w0) by apply is_fresh.
  match goal with |- context [spawnLoop _ _ _ _ _ _ _ _ _ _ ?w1] =>
    destruct (IH (S i) si' (enemies ++ [r]) w1) as (Ha' & Ht' & Hb' & Hm')
  end.
  cbn in Ha', Ht', Hb', Hm'.
  split; [|split; [|split]].
  - intros r' Hin. apply Ha', elem_of_union. right. by apply Ha.
  - intros r' Hin.
    assert (Hin0 : r' ∈ allocated w0) by (by apply Ha).
    rewrite Ht' by (apply elem_of_union; by right).
    rewrite !fn_lookup_insert_ne by (intros ->; done).
    by apply Ht.
  - by rewrite Hb'.
  - by rewrite Hm'.
Qed.

(** X14.  [spawnMoreEnemies] itself writes to the tanks it creates only.
    When [TankClass] is not a constructor the world is left as it was.  With
    a constructor that leaves alone what is there when it is called, the
    tanks behind the references in use, the bullets and the maze are after
    the call as they were before it, also when the call ends with an
    exception of the constructor. *)
Theorem spawnMoreEnemies_keeps_world count TankClass color w :
  let w' := snd (spawnMoreEnemies env count TankClass color w) in
  (TankClass = None -> w' = w)
  /\ (forall construct, TankClass = Some construct -> constructorLocal construct ->
        bullets w' = bullets w /\ maze w' = maze w
        /\ (forall r, r ∈ allocated w -> tanks w' r = tanks w r /\ r ∈ allocated w')).
Proof.
  cbn zeta. unfold spawnMoreEnemies. fold (colorsOf color).
  destruct (canvas env) as [W H].
  assert (Hsnd : snd ((enemies <- spawnLoop env TankClass (colorsOf color) (spawns W H) W H
                                   (iterations count) 0 0 [];;
                       ret (enemies, updateAllAI env enemies)) w)
                 = snd (spawnLoop env TankClass (colorsOf color) (spawns W H) W H
                                  (iterations count) 0 0 [] w)).
  { unfold bind. by destruct (spawnLoop _ _ _ _ _ _ _ _ _ _ w) as [[l|e] w1]. }
  rewrite Hsnd. split.
  - intros ->. destruct (iterations count) as [|n]; [done|].
    by destruct (spawnLoop_None env (colorsOf color) (spawns W H) W H n 0 0 [] w) as [_ ->].
  - intros construct -> Hlocal.
    destruct (spawnLoop_keeps construct (colorsOf color) (spawns W H) W H (iterations count)
                Hlocal 0 0 [] w) as (Ha & Ht & Hb & Hm).
    split; [exact Hb|]. split; [exact Hm|].
    intros r Hr. split; [by apply Ht | by apply Ha].
Qed.

End MoreSpawn.

(** ** More on one tick *)

Section Steering.

(** X15.  The wall terms of the steering value push away from the nearer
    side: with the left clearance the smaller one the value is at least the
    limited angle error (and at least 0.7 more when less than 40 is clear
    ahead), with the right one the smaller it is at most that; with equal
    clearances they vanish, except that a blocked way ahead steers left by
    0.7. *)
Theorem steering_away_from_walls angErr l r f :
  let base := clamp angErr (-0.8) 0.8 in
  (l < r -> base <= steering angErr l r f
            /\ (f < 40 -> base + 0.7 <= steering angErr l r f))
  /\ (r < l -> steering angErr l r f <= base
               /\ (f < 40 -> steering angErr l r f <= base - 0.7))
  /\ (l == r -> (f < 40 -> steering angErr l r f == base - 0.7)
                /\ (40 <= f -> steering angErr l r f == base)).
Proof.
  cbn zeta. unfold steering.
  set (base := clamp angErr (-0.8) 0.8).
  unfold clamp, Math_max, Math_min. clearbody base.
  repeat split; intros; cmp_all; lra.
Qed.

End Steering.

Section MoreTick.

Context {Body Game : Type} (env : Env Body Game).
Implicit Types (c : Ctl Body Game) (st : AgentState).

(** X16.  The one [updateMovement] call of a tick never asks for both turns
    nor for both directions; it asks to go backward only during the unstick
    maneuver, with at most 20 of clearance ahead. *)
Theorem movement_flags_consistent dt enemy c :
  exists new turnLeft turnRight goForward goBackward,
    calls (snd (updateOne env dt enemy c)) = calls c ++ new
    /\ filter is_move new
       = [CallUpdateMovement enemy dt turnLeft turnRight goForward goBackward]
    /\ turnLeft && turnRight = false
    /\ goForward && goBackward = false
    /\ (goBackward = true ->
        0 < unstick (tk_detected env dt enemy c) /\ tk_fwdFeel env enemy c <= 20).
Proof.
  exists (tk_calls env dt enemy c).
  unfold tk_moveCall, tk_maneuver in *.
  destruct (unstick (tk_detected env dt enemy c) >? 0) eqn:E.
  - eexists _, _, _, _. split; [apply updateOne_calls|].
    split; [rewrite tk_calls_moves; unfold tk_moveCall, tk_maneuver; by rewrite E|].
    split; [|split].
    + destruct (unstickDir _ <? 0)%Z eqn:E1, (unstickDir _ >? 0)%Z eqn:E2; try reflexivity.
      apply Z.ltb_lt in E1. apply Z.gtb_lt in E2. lia.
    + destruct (tk_fwdFeel env enemy c >? 30) eqn:E1, (tk_fwdFeel env enemy c <=? 20) eqn:E2;
        try reflexivity.
      apply gtb_gt in E1. apply leb_le in E2. lra.
    + intros Hb. apply leb_le in Hb. apply gtb_gt in E. by split.
  - eexists _, _, _, _. split; [apply updateOne_calls|].
    split; [rewrite tk_calls_moves; unfold tk_moveCall, tk_maneuver; by rewrite E|].
    split; [|split].
    + destruct (tk_steer env dt enemy c <? -0.06) eqn:E1,
               (tk_steer env dt enemy c >? 0.06) eqn:E2; try reflexivity.
      apply ltb_lt in E1. apply gtb_gt in E2. lra.
    + apply andb_false_r.
    + discriminate.
Qed.

(** X17.  A tick with [dt >= 0] and a draw below 1 keeps the timers at or
    below what the controller sets them to (1.6, 0.5 and 0.6) and the
    unstick direction among -1, 0 and +1; the progress timer is at most 0.6
    after any tick. *)
Theorem timers_bounded_above dt enemy c
    (Hdt : 0 <= dt) (Hr : rng c O < 1)
    (Hst : timersBelow (tk_state enemy c)) :
  exists st',
    state (snd (updateOne env dt enemy c)) !! enemy = Some st'
    /\ timersBelow st'.
Proof.
  exists (tk_final env dt enemy c).
  split; [apply updateOne_state|].
  destruct Hst as (Hh & Hu & Hp & Hd).
  destruct (tk_final_holdFire env dt enemy c) as [Hf _].
  destruct (tk_armed_fields env dt enemy c) as (Eu & Ed & Ep & Ex & Ey). cbn zeta in *.
  unfold timersBelow. rewrite Hf. split; [|split; [|split]].
  - unfold tk_armed. destruct (tk_rising env enemy c); cbn;
      match goal with |- context [?a >? 0] =>
        destruct (a >? 0) eqn:E; [apply gtb_gt in E | apply gtb_le in E] end; cbn; lra.
  - unfold tk_final, tk_maneuver, tk_detected, stuckDetect.
    rewrite Ex, Ey, Ep.
    destruct (_ && _ && _); cbn [progress set_progress];
      match goal with |- context [?a >? 0.6] =>
        destruct (a >? 0.6) eqn:E6; [apply gtb_gt in E6 | apply gtb_le in E6] end; cbn;
      rewrite ?Eu;
      match goal with |- context [?a >? 0] =>
        destruct (a >? 0) eqn:E; [apply gtb_gt in E | apply gtb_le in E] end; cbn;
      rewrite ?Eu; lra.
  - unfold tk_final, tk_maneuver, tk_detected, stuckDetect.
    rewrite Ex, Ey, Ep.
    destruct (_ && _ && _); cbn [progress set_progress];
      match goal with |- context [?a >? 0.6] =>
        destruct (a >? 0.6) eqn:E6; [apply gtb_gt in E6 | apply gtb_le in E6] end; cbn;
      match goal with |- context [?a >? 0] => destruct (a >? 0) end; cbn; lra.
  - unfold tk_final, tk_maneuver, tk_detected, stuckDetect.
    rewrite Ex, Ey, Ep.
    destruct (_ && _ && _); cbn [progress set_progress];
      destruct (_ >? 0.6); cbn;
      match goal with |- context [?a >? 0] => destruct (a >? 0) end; cbn;
      rewrite ?Ed; auto;
      destruct (_ <? _); auto.
Qed.

(** X18.  The calls of a tick come in this order: [Math.random], exactly on
    a tick that regains sight; [ensureNav(dt)], exactly on a tick without
    sight; the [updateMovement]; then [canFire()], asked exactly when there
    is sight and the hold-fire timer has run out, followed by [fire()] only
    if it answered true. *)
Theorem tick_call_order dt enemy c :
  exists st' draw nav move shots,
    state (snd (updateOne env dt enemy c)) !! enemy = Some st'
    /\ calls (snd (updateOne env dt enemy c)) = calls c ++ draw ++ nav ++ [move] ++ shots
    /\ is_move move = true
    /\ draw = (if tk_sight env enemy c && negb (hasSight (tk_state enemy c))
               then [CallRandom (rng c O)] else [])
    /\ nav = (if tk_sight env enemy c then [] else [CallEnsureNav dt])
    /\ (shots = [] \/ shots = [CallCanFire enemy false] \/ shots = [CallCanFire enemy true]
        \/ shots = [CallCanFire enemy true; CallFire enemy])
    /\ (shots <> [] <-> tk_sight env enemy c = true /\ holdFire st' <= 0).
Proof.
  exists (tk_final env dt enemy c).
  eexists _, _, (tk_moveCall env dt enemy c), _.
  split; [apply updateOne_state|].
  split; [rewrite updateOne_calls; unfold tk_calls; reflexivity|].
  split; [unfold tk_moveCall; by destruct (tk_maneuver env dt enemy c)|].
  split; [reflexivity|]. split; [reflexivity|].
  unfold tk_fires.
  assert (Hready : tk_ready env dt enemy c = true
                   <-> tk_sight env enemy c = true /\ holdFire (tk_final env dt enemy c) <= 0).
  { unfold tk_ready. by rewrite andb_true_iff, leb_le. }
  destruct (tk_ready env dt enemy c); cbn [andb].
  - split.
    + destruct (tk_canFire env dt enemy c); cbn [andb]; [|auto].
      destruct (Math_abs _ <? 0.15); auto.
    + split; [intros _; by apply Hready | discriminate].
  - split; [auto|]. split; [done|]. intros H. apply Hready in H. discriminate.
Qed.

(** X19.  On the tick that regains sight the agent does not fire and does
    not even ask [canFire()], as long as [dt] is below 0.9 and the draw is
    not negative: the timer it has just armed is still running when the fire
    decision is taken.  The calls of such a tick are the draw and the one
    [updateMovement]. *)
Theorem no_fire_on_regained_sight dt enemy c
    (Hrising : tk_sight env enemy c && negb (hasSight (tk_state enemy c)) = true)
    (Hr : 0 <= rng c O) (Hdt : dt < 0.9) :
  exists st' new,
    state (snd (updateOne env dt enemy c)) !! enemy = Some st'
    /\ calls (snd (updateOne env dt enemy c)) = calls c ++ new
    /\ 0.9 - dt <= holdFire st'
    /\ fireCount new = 0%nat
    /\ (forall e b, ~ In (CallCanFire e b) new)
    /\ (exists move, is_move move = true /\ new = [CallRandom (rng c O); move]).
Proof.
  exists (tk_final env dt enemy c), (tk_calls env dt enemy c).
  split; [apply updateOne_state|]. split; [apply updateOne_calls|].
  destruct (tk_final_holdFire env dt enemy c) as [Hf _].
  assert (Hh : 0.9 - dt <= holdFire (tk_final env dt enemy c)).
  { rewrite Hf. unfold tk_armed. fold (tk_rising env enemy c) in Hrising. rewrite Hrising. cbn.
    match goal with |- context [?a >? 0] =>
      destruct (a >? 0) eqn:E; [apply gtb_gt in E | apply gtb_le in E] end; cbn; lra. }
  split; [exact Hh|].
  assert (Hready : tk_ready env dt enemy c = false).
  { unfold tk_ready. apply andb_false_iff. right. apply leb_gt. lra. }
  assert (Hsight : tk_sight env enemy c = true).
  { apply andb_true_iff in Hrising. tauto. }
  assert (Hmove : is_move (tk_moveCall env dt enemy c) = true).
  { unfold tk_moveCall. destruct (tk_maneuver env dt enemy c); reflexivity. }
  assert (Hcalls : tk_calls env dt enemy c
                   = [CallRandom (rng c O); tk_moveCall env dt enemy c]).
  { unfold tk_calls. fold (tk_rising env enemy c) in Hrising.
    by rewrite Hrising, Hsight, Hready. }
  split; [|split].
  - rewrite tk_calls_fireCount. unfold tk_fires. by rewrite Hready.
  - intros e b. rewrite Hcalls. intros [H|[H|[]]]; [discriminate H|].
    rewrite H in Hmove. discriminate Hmove.
  - exists (tk_moveCall env dt enemy c). by split.
Qed.

End MoreTick.

(** ** Runs of frames *)

Section Frames.

Context {Body Game : Type} (env : Env Body Game).
Implicit Types (c : Ctl Body Game) (st : AgentState) (enemies : list ref).

Lemma updateOne_rng_nonneg dt enemy c :
  (forall k, 0 <= rng c k) -> forall k, 0 <= rng (snd (updateOne env dt enemy c)) k.
Proof.
  intros H k. rewrite updateOne_run. cbn. by destruct (tk_rising env enemy c).
Qed.

Lemma tk_state_holdFire enemy c1 c2 :
  state c1 !! enemy = state c2 !! enemy ->
  holdFire (tk_state enemy c1) = holdFire (tk_state enemy c2).
Proof. intros H. unfold tk_state. rewrite H. by destruct (state c2 !! enemy). Qed.

Lemma tk_state_stored enemy c st : state c !! enemy = Some st -> tk_state enemy c = st.
Proof. intros H. unfold tk_state. by rewrite H. Qed.

(** A tick takes at most [dt] off a hold-fire timer, and a timer that is
    armed anew starts at 0.9 or more. *)
Lemma holdFire_step dt enemy c h :
  0 <= dt -> 0 <= rng c O -> h <= 0.9 -> h <= holdFire (tk_state enemy c) ->
  h - dt <= holdFire (tk_final env dt enemy c).
Proof.
  intros Hdt Hr H9 Hh. destruct (tk_final_holdFire env dt enemy c) as [-> _].
  unfold tk_armed. destruct (tk_rising env enemy c); cbn;
    match goal with |- context [?a >? 0] =>
      destruct (a >? 0) eqn:E; [apply gtb_gt in E | apply gtb_le in E] end; cbn; lra.
Qed.

Lemma updateAllAI_others dt enemies : forall c e,
  e ∉ enemies ->
  state (snd (updateAllAI env enemies dt c)) !! e = state c !! e
  /\ exists new, calls (snd (updateAllAI env enemies dt c)) = calls c ++ new
                 /\ ~ In (CallFire e) new.
Proof.
  induction enemies as [|a l IH]; intros c e He.
  - split; [done|]. exists []. split; [by rewrite app_nil_r | by intros []].
  - apply not_elem_of_cons in He as [Hne Hl]. rewrite updateAllAI_cons.
    destruct (IH (snd (updateOne env dt a c)) e Hl) as (Hs & new & Hc & Hno).
    split; [rewrite Hs; by apply updateOne_state_other|].
    exists (tk_calls env dt a c ++ new). split.
    + by rewrite Hc, updateOne_calls, app_assoc.
    + rewrite in_app_iff. intros [H|H]; [|done].
      apply tk_calls_fire_only in H as [-> _]. done.
Qed.

Lemma updateAllAI_rng_nonneg dt enemies : forall c,
  (forall k, 0 <= rng c k) -> forall k, 0 <= rng (snd (updateAllAI env enemies dt c)) k.
Proof.
  induction enemies as [|a l IH]; intros c H; [done|].
  rewrite updateAllAI_cons. apply IH. by apply updateOne_rng_nonneg.
Qed.

Lemma updateAllAI_holdFire dt enemies : forall c e h,
  0 <= dt -> (forall k, 0 <= rng c k) -> NoDup enemies -> e ∈ enemies ->
  h <= 0.9 -> h <= holdFire (tk_state e c) ->
  exists st' new,
    state (snd (updateAllAI env enemies dt c)) !! e = Some st'
    /\ h - dt <= holdFire st'
    /\ calls (snd (updateAllAI env enemies dt c)) = calls c ++ new
    /\ (In (CallFire e) new -> holdFire st' <= 0).
Proof.
  induction enemies as [|a l IH]; intros c e h Hdt Hr Hnd He H9 Hh.
  - by apply elem_of_nil in He.
  - apply NoDup_cons in Hnd as [Ha Hnd]. rewrite updateAllAI_cons.
    destruct (decide (e = a)) as [->|Hne].
    + destruct (updateAllAI_others dt l (snd (updateOne env dt a c)) a Ha)
        as (Hs & new & Hc & Hno).
      exists (tk_final env dt a c), (tk_calls env dt a c ++ new).
      split; [rewrite Hs; apply updateOne_state|].
      split; [by apply holdFire_step|].
      split; [by rewrite Hc, updateOne_calls, app_assoc|].
      rewrite in_app_iff. intros [H|H]; [|done].
      apply tk_calls_fire_only in H as [_ H].
      unfold tk_fires, tk_ready in H. rewrite !andb_true_iff in H.
      destruct H as [[[_ H] _] _]. by apply leb_le.
    + apply elem_of_cons in He as [?|He]; [done|].
      destruct (IH (snd (updateOne env dt a c)) e h Hdt) as (st' & new & Hs & Hb & Hc & Hf);
        auto.
      { by apply updateOne_rng_nonneg. }
      { rewrite (tk_state_holdFire e _ c); [done|]. by apply updateOne_state_other. }
      exists st', (tk_calls env dt a c ++ new).
      split; [done|]. split; [done|].
      split; [by rewrite Hc, updateOne_calls, app_assoc|].
      rewrite in_app_iff. intros [H|H]; [|auto].
      apply tk_calls_fire_only in H as [? _]. done.
Qed.

(** X20.  An agent whose hold-fire timer is at least [h] (with [h <= 0.9])
    does not fire during the next [n] frames as long as [n * dt < h]: every
    frame takes at most [dt] off the timer, and regaining sight arms it with
    0.9 or more.  With the tick that regains sight this gives the hesitation
    of at least 0.9 s before the first shot. *)
Theorem hold_fire_lasts enemies dt (n : nat) c e h
    (Hdt : 0 <= dt) (Hr : forall k, 0 <= rng c k)
    (Hnd : NoDup enemies) (He : e ∈ enemies)
    (H9 : h <= 0.9) (Hh : h <= holdFire (tk_state e c))
    (Hn : inject_Z (Z.of_nat n) * dt < h) :
  exists new,
    calls (runFrames env enemies dt n c) = calls c ++ new
    /\ ~ In (CallFire e) new
    /\ h - inject_Z (Z.of_nat n) * dt <= holdFire (tk_state e (runFrames env enemies dt n c)).
Proof.
  revert c h Hr H9 Hh Hn. induction n as [|n IH]; intros c h Hr H9 Hh Hn.
  - exists []. cbn [runFrames]. rewrite app_nil_r. split; [done|]. split; [by intros []|].
    change (inject_Z (Z.of_nat 0)) with 0. lra.
  - cbn [runFrames].
    assert (Hcast : inject_Z (Z.of_nat (S n)) == inject_Z (Z.of_nat n) + 1).
    { rewrite Nat2Z.inj_succ. unfold Z.succ. by rewrite inject_Z_plus. }
    rewrite Hcast in Hn.
    destruct (updateAllAI_holdFire dt enemies c e h Hdt Hr Hnd He H9 Hh)
      as (st1 & new1 & Hs1 & Hb1 & Hc1 & Hf1).
    destruct (IH (snd (updateAllAI env enemies dt c)) (h - dt)) as (new & Hc & Hno & Hb).
    + by apply updateAllAI_rng_nonneg.
    + lra.
    + by rewrite (tk_state_stored e _ st1).
    + lra.
    + exists (new1 ++ new). split; [by rewrite Hc, Hc1, app_assoc|]. split.
      * rewrite in_app_iff. intros [H|H]; [|done].
        apply Hf1 in H. assert (0 <= inject_Z (Z.of_nat n)) by
          (change 0 with (inject_Z 0); rewrite <- Zle_Qle; lia). nra.
      * rewrite Hcast. lra.
Qed.

Lemma updateAllAI_dom dt enemies : forall c,
  dom (state (snd (updateAllAI env enemies dt c))) = dom (state c) ∪ list_to_set enemies.
Proof.
  induction enemies as [|a l IH]; intros c.
  - cbn. by rewrite union_empty_r_L.
  - rewrite updateAllAI_cons, IH, updateOne_run. cbn.
    rewrite dom_insert_L. by rewrite (assoc_L (∪)), (comm_L (∪) {[a]}).
Qed.

(** X21.  Frames only add to the state map: after any number of frames (one
    or more) it has an entry for every enemy of the list and for whatever it
    had before, and nothing is ever removed, also not for a tank that is no
    longer updated. *)
Theorem state_entries_only_grow enemies dt (n : nat) c :
  dom (state (runFrames env enemies dt (S n) c)) = dom (state c) ∪ list_to_set enemies
  /\ forall m e, (m <= S n)%nat -> e ∈ dom (state (runFrames env enemies dt m c)) ->
       e ∈ dom (state (runFrames env enemies dt (S n) c)).
Proof.
  assert (Hdom : forall m c, dom (state (runFrames env enemies dt (S m) c))
                             = dom (state c) ∪ list_to_set enemies).
  { induction m as [|m IH]; intros c0.
    - cbn [runFrames]. apply updateAllAI_dom.
    - change (runFrames env enemies dt (S (S m)) c0)
        with (runFrames env enemies dt (S m) (snd (updateAllAI env enemies dt c0))).
      rewrite IH, updateAllAI_dom.
      by rewrite <- (assoc_L (∪)), (idemp_L (∪)). }
  split; [apply Hdom|].
  intros m e Hm He. rewrite Hdom. destruct m as [|m].
  - cbn in He. apply elem_of_union. by left.
  - by rewrite Hdom in He.
Qed.

End Frames.

(** * Concrete runs *)

Module Runs.
Import Arena.


(** A tick that fires: sight, timer at 0, ready to fire, facing the player. *)
Example engaged_tank_fires :
  calls (snd (updateOne env0 0.02 enemy (ctl_engaged open_view)))
  = [CallUpdateMovement enemy 0.02 false false true false;
     CallCanFire enemy true; CallFire enemy].
Proof. vm_compute. reflexivity. Qed.

(** The first tick with sight arms the timer (draw 0.5: 0.9 + 0.35 - 0.02)
    and does not fire. *)
Example first_sight_holds_fire :
  calls (snd (updateOne env0 0.02 enemy (ctl0 open_view)))
  = [CallRandom 0.5; CallUpdateMovement enemy 0.02 false false true false]
  /\ (holdFire <$> state (snd (updateOne env0 0.02 enemy (ctl0 open_view))) !! enemy)
     = Some (0.9 + 0.5 * 0.7 - 0.02).
Proof. split; vm_compute; reflexivity. Qed.

(** Wedged in a dead end with 45 of clearance: 60 ticks of 0.01 do not start
    the maneuver, the 61st does, with direction +1 (the left is closer). *)
Example wedged_tank_unsticks :
  (unstick <$> state (runFrames env_wedged [enemy] 0.01 60 (ctl0 dead_end)) !! enemy) = Some 0
  /\ (unstick <$> state (runFrames env_wedged [enemy] 0.01 61 (ctl0 dead_end)) !! enemy)
     = Some (0.5 - 0.01)
  /\ (unstickDir <$> state (runFrames env_wedged [enemy] 0.01 61 (ctl0 dead_end)) !! enemy)
     = Some 1%Z
  /\ (progress <$> state (runFrames env_wedged [enemy] 0.01 61 (ctl0 dead_end)) !! enemy)
     = Some 0.
Proof. repeat split; vm_compute; reflexivity. Qed.

(** Without sight and with an [ensureNav] that moves the tank onto the
    waypoint, the tick steers from where the tank is then: the bearing to the
    waypoint is 0 and no turn is asked for.  In the narrow corridor the
    displacement of 1 since the last tick ends the stall, so the progress
    timer is back at 0. *)
Example moved_by_ensureNav :
  calls (snd (updateOne env_drift 0.02 enemy (ctl0 hidden)))
  = [CallEnsureNav 0.02; CallUpdateMovement enemy 0.02 false false true false]
  /\ (progress <$> state (snd (updateOne env_drift 0.02 enemy (ctl0 hidden_narrow))) !! enemy)
     = Some 0
  /\ (progress <$> state (snd (updateOne env0 0.02 enemy (ctl0 hidden_narrow))) !! enemy)
     = Some 0.02.
Proof. repeat split; vm_compute; reflexivity. Qed.

(** The tank methods of the arena change no tank but their receiver. *)
Lemma arena_local : ActorsLocal env0.
Proof.
  split.
  - intros dt l r f b e w r' Hne. cbn. unfold move, set_tanks. cbn.
    by rewrite fn_lookup_insert_ne.
  - intros e w r' Hne. reflexivity.
  - intros dt w r'. reflexivity.
Qed.

(** C2, on the first tick with sight: the timer is armed with the draw 0.5. *)
Lemma holdFire_edge_witness :
  0 <= rng (ctl0 open_view) O < 1
  /\ exists st',
       state (snd (updateOne env0 0.02 enemy (ctl0 open_view))) !! enemy = Some st'
       /\ holdFire st' = 0.9 + 0.5 * 0.7 - 0.02.
Proof.
  assert (Hr : 0 <= rng (ctl0 open_view) O < 1).
  { split; [intros H; discriminate H | reflexivity]. }
  split; [exact Hr|].
  destruct (holdFire_edge env0 0.02 enemy (ctl0 open_view) Hr) as (st' & Hst & Hh & _).
  exists st'. split; [exact Hst | exact Hh].
Defined.

(** C5 as stated fails: from a fresh controller, one tick of 2 s leaves the
    hold-fire timer at 0.9 + 0.5 * 0.7 - 2 < 0, and at 30 frames per second
    the timer is below 0 after the 38th frame. *)
Lemma timers_negative :
  (exists st',
     state (snd (updateOne env0 2 enemy (ctl0 open_view))) !! enemy = Some st'
     /\ 0 < 2 /\ ~ (0 <= holdFire st' /\ 0 <= unstick st' /\ 0 <= progress st'))
  /\ (exists st',
        state (runFrames env0 [enemy] (1 # 30) 38 (ctl0 open_view)) !! enemy = Some st'
        /\ holdFire st' < 0).
Proof.
  split.
  - eexists. split; [vm_compute; reflexivity|]. split; [reflexivity|].
    intros [H _]. vm_compute in H. by apply H.
  - eexists. split; [vm_compute; reflexivity|]. reflexivity.
Qed.

(** C5 (amended), at 30 frames per second from a fresh controller. *)
Lemma timers_bounded_below_witness :
  0 < 1 # 30 /\ 1 # 30 <= 1 # 30 /\ 0 <= rng (ctl0 open_view) O
  /\ timersAbove (1 # 30) (tk_state enemy (ctl0 open_view))
  /\ exists st',
       state (snd (updateOne env0 (1 # 30) enemy (ctl0 open_view))) !! enemy = Some st'
       /\ timersAbove (1 # 30) st'.
Proof.
  assert (Hdt : 0 < 1 # 30) by reflexivity.
  assert (HD : 1 # 30 <= 1 # 30) by (intros H; discriminate H).
  assert (Hr : 0 <= rng (ctl0 open_view) O) by (intros H; discriminate H).
  assert (Hst : timersAbove (1 # 30) (tk_state enemy (ctl0 open_view))).
  { split; [reflexivity|]. split; [reflexivity|]. intros H; discriminate H. }
  split; [exact Hdt|]. split; [exact HD|]. split; [exact Hr|]. split; [exact Hst|].
  exact (timers_bounded_below env0 (1 # 30) (1 # 30) enemy (ctl0 open_view) Hdt HD Hr Hst).
Defined.


(** Nor is a factory that is not a constructor turned down when nothing is
    to be built; with one tank to build the first [new] throws. *)
Example spawn_without_constructor :
  agents (fst (spawnMoreEnemies env0 0 None None (world0 open_view))) = Some []
  /\ fst (spawnMoreEnemies env0 1 None None (world0 open_view))
     = Throw (TypeError "TankClass is not a constructor").
Proof. split; reflexivity. Qed.

(** A [count] of 2.5 gives three enemies: the loop runs for i = 0, 1, 2. *)
Example spawn_fractional_count :
  agents (fst (spawnMoreEnemies env0 2.5 (Some (plainConstructor construct)) None
                                (world0 open_view)))
  = Some [2; 3; 4]%positive.
Proof. vm_compute. reflexivity. Qed.

(** An exception of the constructor ends the call; a constructor with an
    effect of its own has run once per enemy when the call returns. *)
Example spawn_constructor_effects :
  fst (spawnMoreEnemies env0 2 (Some failingConstructor) None (world0 open_view))
  = Throw (JsError "out of tanks")
  /\ (let r := spawnMoreEnemies env0 2 (Some countingConstructor) None (world0 open_view) in
      agents (fst r) = Some [2; 3]%positive /\ sc_shots (game (snd r)) = 2%nat).
Proof. split; [reflexivity|]. cbv zeta. split; vm_compute; reflexivity. Qed.


(** X14, for a constructor that counts the tanks it builds: the player is
    as before. *)
Lemma spawnMoreEnemies_keeps_world_witness :
  constructorLocal countingConstructor
  /\ (let w' := snd (spawnMoreEnemies env0 2 (Some countingConstructor) None
                                      (world0 open_view)) in
      maze w' = maze (world0 open_view)
      /\ tanks w' 1%positive = tanks (world0 open_view) 1%positive).
Proof.
  assert (Hlocal : constructorLocal countingConstructor).
  { intros px py c w. cbn. split; [reflexivity|]. split; [reflexivity|].
    split; reflexivity. }
  split; [exact Hlocal|]. cbv zeta.
  destruct (spawnMoreEnemies_keeps_world env0 2 (Some countingConstructor) None
              (world0 open_view)) as [_ Hkeep].
  destruct (Hkeep countingConstructor eq_refl Hlocal) as (_ & Hmaze & Htanks).
  split; [exact Hmaze|]. apply Htanks. apply elem_of_singleton. reflexivity.
Defined.

(** Three enemies are spawned at the first three spawn points. *)
Example spawn_three :
  let r := spawnMoreEnemies env0 3 (Some (plainConstructor construct)) None
                            (world0 open_view) in
  agents (fst r) = Some [2; 3; 4]%positive
  /\ tank_x (tanks (snd r) 2%positive) == 680 /\ tank_y (tanks (snd r) 2%positive) == 90
  /\ tank_x (tanks (snd r) 3%positive) == 680 /\ tank_y (tanks (snd r) 3%positive) == 510
  /\ tank_turnSpeed (tanks (snd r) 4%positive) == 1.8.
Proof. cbv zeta. repeat split; vm_compute; reflexivity. Qed.

(** C9, for two enemies in the arena. *)
Lemma updateAllAI_frame_witness :
  ActorsLocal env0
  /\ fst (updateAllAI env0 [2; 3]%positive 0.02 (ctl0 open_view)) = Ok tt
  /\ tanks (world (snd (updateAllAI env0 [2; 3]%positive 0.02 (ctl0 open_view)))) 1%positive
     = tanks (world (ctl0 open_view)) 1%positive
  /\ state (snd (updateAllAI env0 [2; 3]%positive 0.02 (ctl0 open_view))) !! 3%positive
     = Some (tk_final env0 0.02 3%positive
               (snd (updateAllAI env0 [2%positive] 0.02 (ctl0 open_view)))).
Proof.
  split; [exact arena_local|].
  destruct (updateAllAI_frame env0 [2; 3]%positive 0.02 (ctl0 open_view) arena_local)
    as (Hok & _ & _ & Hplayer & _ & _ & Hown).
  split; [exact Hok|]. split.
  - apply Hplayer.
    cbn. intros H. apply elem_of_cons in H as [H|H]; [discriminate H|].
    apply elem_of_cons in H as [H|H]; [discriminate H|]. by apply elem_of_nil in H.
  - refine (proj1 (proj2 (proj2 (Hown _ [2%positive] 3%positive [] eq_refl)))).
    refine (bool_decide_unpack (NoDup [2; 3]%positive) _). vm_compute. exact I.
Defined.

(** C10, for the classes of the arena. *)
Lemma installers_idempotent_witness :
  is_Some (proto_fire TankClass0) /\ is_Some (proto_updateMovement TankClass0)
  /\ is_Some (proto_update BulletClass0)
  /\ exists tc1,
       increaseBulletSpeed (Some TankClass0) (Some 2) = Ok tc1
       /\ increaseBulletSpeed (Some tc1) (Some 2) = Ok tc1
       /\ proto_fire tc1 = Some (fastFire (Some fire0) 2).
Proof.
  assert (Hf : is_Some (proto_fire TankClass0)) by (eexists; reflexivity).
  assert (Hm : is_Some (proto_updateMovement TankClass0)) by (eexists; reflexivity).
  assert (Hu : is_Some (proto_update BulletClass0)) by (eexists; reflexivity).
  split; [exact Hf|]. split; [exact Hm|]. split; [exact Hu|].
  destruct (installers_idempotent TankClass0 BulletClass0 Hf Hm Hu) as (_ & _ & _ & Htwice).
  destruct (Htwice eq_refl 2) as (tc1 & H1 & H2 & H3 & _).
  exists tc1. split; [exact H1|]. split; [exact H2 | exact H3].
Defined.

(** After two calls of [increaseBulletSpeed] with factor 2, the bullet that
    [fire] returns has twice the velocity (10, -4) of the original, not four
    times. *)
Example fire_twice_patched :
  exists tc1 tc2 fire2,
    increaseBulletSpeed (Some TankClass0) (Some 2) = Ok tc1
    /\ increaseBulletSpeed (Some tc1) (Some 2) = Ok tc2
    /\ proto_fire tc2 = Some fire2
    /\ bullet_vx (bullets (snd (fire2 tt enemy (world0 open_view))) 7%positive) == 20
    /\ bullet_vy (bullets (snd (fire2 tt enemy (world0 open_view))) 7%positive) == -8.
Proof. eexists _, _, _. repeat split; vm_compute; reflexivity. Qed.

(** The patched [update] reflects a bullet on the right edge of an 800 wide
    canvas: from x = 795 at 100 per second, a step of 0.1 s ends at x = 785
    heading left; the edge does not count as a bounce. *)
Example bullet_reflects_on_edge :
  let b := bullets (snd (bouncingUpdate bounceEnv0 3 0.1 7%positive world_shot)) 7%positive in
  bullet_x b == 785 /\ bullet_vx b == -100 /\ bullet_life b == 1.9
  /\ bullet_alive b = true /\ bullet_bounces b = Some 0.
Proof. cbv zeta. repeat split; vm_compute; reflexivity. Qed.

(** [enableDeadlyWalls] tags the walls on every call, also when the guard
    then returns early. *)
Example deadly_walls_retagged :
  let r1 := enableDeadlyWalls (Some TankClass0) deadlyEnv0 (DeadlyIndices [0%nat]) world_shot in
  exists tc1,
    fst r1 = Ok tc1
    /\ (wall_deadly <$> maze (snd r1)) = [true; false]
    /\ (wall_deadly <$>
          maze (snd (enableDeadlyWalls (Some tc1) deadlyEnv0
                                       (DeadlyPredicate (fun _ _ => true)) (snd r1))))
       = [true; true].
Proof. cbv zeta. eexists. repeat split. Qed.

(** The bounce environment of the arena has no effect callbacks. *)
Lemma arena_quiet this : quietCallbacks bounceEnv0 this.
Proof. split; cbn; intros; congruence. Qed.

(** X9, for the bullet behind reference 7 of the arena, which is not alive. *)
Lemma bouncingUpdate_dead_witness :
  bullet_alive (bullets (world0 open_view) 7%positive) = false
  /\ bouncingUpdate bounceEnv0 3 0.1 7%positive (world0 open_view)
     = (Ok tt, world0 open_view).
Proof.
  split; [reflexivity|].
  exact (bouncingUpdate_dead bounceEnv0 3 0.1 7%positive (world0 open_view) eq_refl).
Defined.

(** X10, for the bullet in flight of [world_shot]. *)
Lemma bouncingUpdate_advances_witness :
  quietCallbacks bounceEnv0 7%positive
  /\ bullet_alive (bullets world_shot 7%positive) = true
  /\ exists w',
       bouncingUpdate bounceEnv0 3 0.1 7%positive world_shot = (Ok tt, w')
       /\ bullet_life (bullets w' 7%positive) = bullet_life (bullets world_shot 7%positive) - 0.1.
Proof.
  split; [exact (arena_quiet 7%positive)|]. split; [reflexivity|].
  destruct (bouncingUpdate_advances bounceEnv0 3 0.1 7%positive world_shot
              (arena_quiet 7%positive) eq_refl) as (w' & Hrun & Hlife & _).
  exists w'. split; [exact Hrun | exact Hlife].
Defined.

(** X11, for the same bullet: its step crosses no wall and leaves the canvas
    on the right. *)
Lemma bouncingUpdate_reflects_witness :
  quietCallbacks bounceEnv0 7%positive
  /\ bullet_alive (bullets world_shot 7%positive) = true
  /\ bullet_bounces (bullets (snd (bouncingUpdate bounceEnv0 3 0.1 7%positive world_shot))
                             7%positive) = Some 0.
Proof.
  split; [exact (arena_quiet 7%positive)|]. split; [reflexivity|].
  destruct (bouncingUpdate_reflects bounceEnv0 3 0.1 7%positive world_shot
              (arena_quiet 7%positive) eq_refl) as (_ & Hmiss & _).
  destruct (Hmiss eq_refl) as (Hb & _). exact Hb.
Defined.

(** Every spawn point of the arena can be occupied. *)
Lemma arena_free : allSpawnsFree env0 (spawns (fst (canvas env0)) (snd (canvas env0))).
Proof. intros j. reflexivity. Qed.

(** X13, for three enemies in the arena. *)
Lemma spawnMoreEnemies_places_witness :
  allSpawnsFree env0 (spawns (fst (canvas env0)) (snd (canvas env0)))
  /\ exists enemies w',
       spawnMoreEnemies env0 3 (Some (plainConstructor construct)) None (world0 open_view)
       = (Ok (enemies, updateAllAI env0 enemies), w').
Proof.
  split; [exact arena_free|].
  destruct (spawnMoreEnemies_places env0 3 construct None (world0 open_view) arena_free)
    as (enemies & w' & Hrun & _).
  exists enemies, w'. exact Hrun.
Defined.

(** X17, on the first tick of a fresh controller. *)
Lemma timers_bounded_above_witness :
  0 <= 0.02 /\ rng (ctl0 open_view) O < 1
  /\ timersBelow (tk_state enemy (ctl0 open_view))
  /\ exists st',
       state (snd (updateOne env0 0.02 enemy (ctl0 open_view))) !! enemy = Some st'
       /\ timersBelow st'.
Proof.
  assert (Hdt : 0 <= 0.02) by (intros H; discriminate H).
  assert (Hr : rng (ctl0 open_view) O < 1) by reflexivity.
  assert (Hst : timersBelow (tk_state enemy (ctl0 open_view))).
  { split; [intros H; discriminate H|]. split; [intros H; discriminate H|].
    split; [intros H; discriminate H|]. right. left. reflexivity. }
  split; [exact Hdt|]. split; [exact Hr|]. split; [exact Hst|].
  exact (timers_bounded_above env0 0.02 enemy (ctl0 open_view) Hdt Hr Hst).
Defined.

(** X19, on the first tick of a fresh controller with the player in view. *)
Lemma no_fire_on_regained_sight_witness :
  tk_sight env0 enemy (ctl0 open_view) && negb (hasSight (tk_state enemy (ctl0 open_view))) = true
  /\ 0 <= rng (ctl0 open_view) O /\ 0.02 < 0.9
  /\ exists st' new,
       state (snd (updateOne env0 0.02 enemy (ctl0 open_view))) !! enemy = Some st'
       /\ calls (snd (updateOne env0 0.02 enemy (ctl0 open_view)))
          = calls (ctl0 open_view) ++ new
       /\ fireCount new = 0%nat
       /\ (forall e b, ~ In (CallCanFire e b) new).
Proof.
  assert (Hr : 0 <= rng (ctl0 open_view) O) by (intros H; discriminate H).
  assert (Hdt : 0.02 < 0.9) by reflexivity.
  split; [reflexivity|]. split; [exact Hr|]. split; [exact Hdt|].
  destruct (no_fire_on_regained_sight env0 0.02 enemy (ctl0 open_view) eq_refl Hr Hdt)
    as (st' & new & Hst & Hcalls & _ & Hfire & Hask & _).
  exists st', new. split; [exact Hst|]. split; [exact Hcalls|].
  split; [exact Hfire | exact Hask].
Defined.

(** X20, for two enemies of which tank 2 has one second left on its timer:
    it does not fire during the next ten frames of 0.02 s. *)
Lemma hold_fire_lasts_witness :
  0 <= 0.02 /\ (forall k, 0 <= rng (ctl_waiting open_view) k)
  /\ NoDup [2; 3]%positive /\ 2%positive ∈ [2; 3]%positive
  /\ 0.9 <= 0.9 /\ 0.9 <= holdFire (tk_state 2%positive (ctl_waiting open_view))
  /\ inject_Z (Z.of_nat 10) * 0.02 < 0.9
  /\ exists new,
       calls (runFrames env0 [2; 3]%positive 0.02 10 (ctl_waiting open_view))
       = calls (ctl_waiting open_view) ++ new
       /\ ~ In (CallFire 2%positive) new.
Proof.
  assert (Hdt : 0 <= 0.02) by (intros H; discriminate H).
  assert (Hr : forall k, 0 <= rng (ctl_waiting open_view) k) by (intros k H; discriminate H).
  assert (Hnd : NoDup [2; 3]%positive)
    by (refine (bool_decide_unpack (NoDup [2; 3]%positive) _); vm_compute; exact I).
  assert (He : 2%positive ∈ [2; 3]%positive) by (apply elem_of_cons; left; reflexivity).
  assert (H9 : 0.9 <= 0.9) by (intros H; discriminate H).
  assert (Hh : 0.9 <= holdFire (tk_state 2%positive (ctl_waiting open_view)))
    by (intros H; discriminate H).
  assert (Hn : inject_Z (Z.of_nat 10) * 0.02 < 0.9) by reflexivity.
  split; [exact Hdt|]. split; [exact Hr|]. split; [exact Hnd|]. split; [exact He|].
  split; [exact H9|]. split; [exact Hh|]. split; [exact Hn|].
  destruct (hold_fire_lasts env0 [2; 3]%positive 0.02 10 (ctl_waiting open_view)
              2%positive 0.9 Hdt Hr Hnd He H9 Hh Hn) as (new & Hcalls & Hno & _).
  exists new. split; [exact Hcalls | exact Hno].
Defined.

(** X6, for a Tank class without [fire]. *)
Lemma increaseBulletSpeed_without_fire_witness :
  let tc := mkTankClassObj (Body := unit) (Game := Scene) (FireArgs := unit)
                           None (Some move0) None None in
  proto_fire tc = None /\ orig_fire_fastpatch tc = None
  /\ exists tc1 tc2,
       increaseBulletSpeed (Some tc) (Some 2) = Ok tc1
       /\ truthy (orig_fire_fastpatch tc1) = false
       /\ increaseBulletSpeed (Some tc1) (Some 2) = Ok tc2
       /\ proto_fire tc2 = Some (fastFire (Some (fastFire None 2)) 2).
Proof.
  cbv zeta. split; [reflexivity|]. split; [reflexivity|].
  destruct (increaseBulletSpeed_without_fire
              (mkTankClassObj (Body := unit) (Game := Scene) (FireArgs := unit)
                              None (Some move0) None None) 2 2 eq_refl eq_refl)
    as (tc1 & tc2 & H1 & H2 & H3 & _ & H5 & _).
  exists tc1, tc2. split; [exact H1|]. split; [exact H2|]. split; [exact H3 | exact H5].
Defined.

End Runs.
